(** * Resume parser and job matcher: a shallow embedding and its properties

    The development follows the Python programs of the repository:

    - [ResumeProcessorFunction/app.py]: the queue consumer.  It reads a
      document reference from each queued message, obtains the recognised
      text, parses it into a candidate profile ([parse_candidate_profile]),
      scores the profile against every job ([compute_matches],
      [jaccard_similarity]) and stores the result.
    - [src/api/app.py]: the HTTP front end ([lambda_handler], [create_job],
      [_parse_body], [_response]).
    - [EnqueueResumeFunction/app.py]: the adapter that turns storage events
      into queue messages.

    The services the programs call (the JSON decoder, the text
    recognition, the tables, the queue) are parameters of the handlers.

    Conventions of the embedding.

    - A Python [str] is a Rocq [string]; a character is a code point below
      256 (Latin-1).  Case mapping, white space and line boundaries are the
      ones Python uses on that range.
    - A Python [float] that holds a ratio of two set sizes or a decimal
      literal is the rational number it approximates ([Q], compared with
      [==]).  Where the binary representation decides the result, in
      [round], the binary64 number nearest to the rational is taken first
      ([Py.to_double]).
    - A Python [set] of strings is a [gset string].
    - Code that can raise returns an [outcome]: [Return v] or [Raise e]. *)

From Stdlib Require Import QArith Qround Qpower Qabs Lqa String Ascii List Lia Permutation Sorted.
From stdpp Require Import gmap strings list sets sorting pretty.

Import ListNotations.
Local Open Scope string_scope.
Local Open Scope list_scope.

(** ** Exceptions and the [outcome] monad *)

Inductive exn : Set :=
| ValueError
| IndexError
| ZeroDivisionError
| AttributeError
| TypeError
| RuntimeError (msg : string)
| JSONDecodeError
| RecursionError
| ClientError.

Inductive outcome (A : Type) : Type :=
| Return (a : A)
| Raise (e : exn).

Arguments Return {A} a.
Arguments Raise {A} e.

Definition bind {A B : Type} (f : A -> outcome B) (m : outcome A) : outcome B :=
  match m with
  | Return a => f a
  | Raise e => Raise e
  end.

(** [x ← m; k] runs [m] and, unless it raised, continues with [k]. *)
#[global] Instance outcome_ret : MRet outcome := @Return.
#[global] Instance outcome_bind : MBind outcome := @bind.

(** ** Python strings *)

Module PyStr.

Definition code (c : ascii) : nat := nat_of_ascii c.

Definition between (lo hi : nat) (c : ascii) : bool :=
  (lo <=? code c)%nat && (code c <=? hi)%nat.

Definition is_upper (c : ascii) : bool := between 65 90 c.
Definition is_lower (c : ascii) : bool := between 97 122 c.
Definition is_alpha (c : ascii) : bool := is_upper c || is_lower c.
Definition is_digit (c : ascii) : bool := between 48 57 c.

(** [str.isspace] on one character: TAB, LF, VT, FF, CR, FS, GS, RS, US,
    SPACE, NEL and NBSP. *)
Definition is_space (c : ascii) : bool :=
  between 9 13 c || between 28 32 c || (code c =? 133)%nat || (code c =? 160)%nat.

(** The line boundaries of [str.splitlines]: LF, VT, FF, CR, FS, GS, RS
    and NEL. *)
Definition is_linebreak (c : ascii) : bool :=
  between 10 13 c || between 28 30 c || (code c =? 133)%nat.

(** [str.lower] on one character: A-Z and the Latin-1 capitals
    (192..222 except the multiplication sign 215) move up by 32. *)
Definition lower_char (c : ascii) : ascii :=
  if is_upper c || (between 192 222 c && negb (code c =? 215)%nat)
  then ascii_of_nat (code c + 32)
  else c.

(** [str.upper] on one character.  The three Latin-1 letters whose
    capital lies outside Latin-1 (181, 223, 255) are left in place; none
    of them, and none of their capitals, is an ASCII letter. *)
Definition upper_char (c : ascii) : ascii :=
  if is_lower c || (between 224 254 c && negb (code c =? 247)%nat)
  then ascii_of_nat (code c - 32)
  else c.

Fixpoint map_chars (f : ascii -> ascii) (s : string) : string :=
  match s with
  | EmptyString => EmptyString
  | String c s' => String (f c) (map_chars f s')
  end.

Definition lower : string -> string := map_chars lower_char.
Definition upper : string -> string := map_chars upper_char.

Fixpoint all_chars (p : ascii -> bool) (s : string) : bool :=
  match s with
  | EmptyString => true
  | String c s' => p c && all_chars p s'
  end.

Definition is_empty (s : string) : bool :=
  match s with EmptyString => true | String _ _ => false end.

Fixpoint lstrip (s : string) : string :=
  match s with
  | EmptyString => EmptyString
  | String c s' => if is_space c then lstrip s' else s
  end.

Fixpoint rstrip (s : string) : string :=
  match s with
  | EmptyString => EmptyString
  | String c s' =>
      let r := rstrip s' in
      if is_space c && is_empty r then EmptyString else String c r
  end.

(** [str.strip()] *)
Definition strip (s : string) : string := rstrip (lstrip s).

(** [str.splitlines()]: the lines without their terminators; CR LF is one
    terminator; a trailing terminator opens no further line. *)
Fixpoint splitlines (s : string) : list string :=
  match s with
  | EmptyString => []
  | String c s' =>
      if is_linebreak c then
        match c, s' with
        | "013"%char, String "010"%char s'' => EmptyString :: splitlines s''
        | _, _ => EmptyString :: splitlines s'
        end
      else
        match splitlines s' with
        | [] => [String c EmptyString]
        | l :: ls => String c l :: ls
        end
  end.

(** [needle in hay] *)
Fixpoint contains (needle hay : string) : bool :=
  String.prefix needle hay ||
  match hay with
  | EmptyString => false
  | String _ hay' => contains needle hay'
  end.

(** [s[:n]] *)
Fixpoint take (n : nat) (s : string) : string :=
  match n, s with
  | S n', String c s' => String c (take n' s')
  | _, _ => EmptyString
  end.

(** Python truthiness of a string. *)
Definition truthy (s : string) : bool := negb (is_empty s).

End PyStr.

(** ** The fragment of Python's [re] that the parser uses

    The engine is the backtracking one: alternatives are tried in priority
    order (greedy repetition takes the longest run first and gives
    characters back one at a time; [r?] tries [r] before the empty
    string), and the first success wins.  Continuations carry the text
    still to be matched and the text captured by group 1. *)

Module Re.

Inductive regex : Type :=
| Chr (c : ascii)                      (* a literal character *)
| Cls (p : ascii -> bool)              (* a character class, [\d], [\s] *)
| Cat (r1 r2 : regex)                  (* r1 r2 *)
| Opt (r : regex)                      (* r? *)
| Rep (p : ascii -> bool) (lo : nat)   (* [p]{lo,}: p+ is lo = 1, p* is lo = 0 *)
| Grp (r : regex).                     (* ( r ), the capturing group *)

(** A literal word, character by character. *)
Fixpoint Lit (w : string) : regex :=
  match w with
  | EmptyString => Rep (fun _ => false) 0
  | String c EmptyString => Chr c
  | String c w' => Cat (Chr c) (Lit w')
  end.

Section Engine.
Context {R : Type}.

(** Greedy repetition of a class, at least [lo] times. *)
Fixpoint rep (p : ascii -> bool) (lo : nat) (k : string -> option R)
    (s : string) : option R :=
  let stop := match lo with O => k s | S _ => None end in
  match s with
  | EmptyString => stop
  | String c s' =>
      if p c then
        match rep p (Nat.pred lo) k s' with
        | Some x => Some x
        | None => stop
        end
      else stop
  end.

Fixpoint run (r : regex) (s : string) (g : option string)
    (k : string -> option string -> option R) : option R :=
  match r with
  | Chr c =>
      match s with
      | String c' s' => if Ascii.eqb c c' then k s' g else None
      | EmptyString => None
      end
  | Cls p =>
      match s with
      | String c' s' => if p c' then k s' g else None
      | EmptyString => None
      end
  | Cat r1 r2 => run r1 s g (fun s1 g1 => run r2 s1 g1 k)
  | Opt r1 =>
      match run r1 s g k with
      | Some x => Some x
      | None => k s g
      end
  | Rep p lo => rep p lo (fun s' => k s' g) s
  | Grp r1 =>
      run r1 s g (fun s' _ =>
        k s' (Some (PyStr.take (String.length s - String.length s') s)))
  end.
End Engine.

(** A match object: [group(0)] and [group(1)]. *)
Record mtch : Type := { whole : string; group1 : option string }.

(** Anchored match at the start of [s]. *)
Definition match_at (r : regex) (s : string) : option mtch :=
  run r s None (fun s' g =>
    Some {| whole := PyStr.take (String.length s - String.length s') s;
            group1 := g |}).

(** [re.search]: the match at the leftmost position that has one. *)
Fixpoint search (r : regex) (s : string) : option mtch :=
  match match_at r s with
  | Some m => Some m
  | None =>
      match s with
      | EmptyString => None
      | String _ s' => search r s'
      end
  end.

(** The matches that [re.findall] walks through: left to right, each
    search resuming where the previous match ended.  [skip] counts the
    characters of the current match still to be stepped over. *)
Fixpoint scan (r : regex) (skip : nat) (s : string) : list mtch :=
  let next (n : nat) :=
    match s with
    | EmptyString => []
    | String _ s' => scan r n s'
    end in
  match skip with
  | S n => next n
  | O =>
      match match_at r s with
      | Some m => m :: next (Nat.pred (String.length (whole m)))
      | None => next O
      end
  end.

(** [re.findall] for a pattern with one group: the text of group 1 of
    every match, the empty string for a group that took no part. *)
Definition findall (r : regex) (s : string) : list string :=
  map (fun m => match group1 m with Some g => g | None => EmptyString end)
      (scan r 0 s).

(** *** What a pattern denotes *)

Inductive denotes : regex -> string -> Prop :=
| d_chr c : denotes (Chr c) (String c EmptyString)
| d_cls (p : ascii -> bool) c : p c = true -> denotes (Cls p) (String c EmptyString)
| d_cat r1 r2 w1 w2 :
    denotes r1 w1 -> denotes r2 w2 -> denotes (Cat r1 r2) (w1 +:+ w2)
| d_opt_none r : denotes (Opt r) EmptyString
| d_opt_some r w : denotes r w -> denotes (Opt r) w
| d_rep (p : ascii -> bool) lo w :
    PyStr.all_chars p w = true -> lo <= String.length w -> denotes (Rep p lo) w
| d_grp r w : denotes r w -> denotes (Grp r) w.

(** The bodies of the capturing groups of a pattern. *)
Fixpoint groups (r : regex) : list regex :=
  match r with
  | Chr _ | Cls _ | Rep _ _ => []
  | Cat r1 r2 => groups r1 ++ groups r2
  | Opt r1 => groups r1
  | Grp r1 => r1 :: groups r1
  end.

(** [w] occurs in [s] at offset [i]. *)
Definition occurs_at (w : string) (i : nat) (s : string) : Prop :=
  exists pre post, s = pre +:+ w +:+ post /\ String.length pre = i.

End Re.

(** ** Python built-ins used by the programs *)

Module Py.

(** *** [float(s)] on a decimal literal

    Digits with at most one decimal point and at least one digit.  Python
    reads a few more forms (signs, exponents, surrounding blanks); the
    patterns of this program never capture one. *)

Fixpoint pow10 (n : nat) : positive :=
  match n with
  | O => 1%positive
  | S n' => (10 * pow10 n')%positive
  end.

Definition digit_value (c : ascii) : Z := Z.of_nat (PyStr.code c) - 48.

Fixpoint digits_value (acc : Z) (s : string) : Z :=
  match s with
  | EmptyString => acc
  | String c s' => digits_value (10 * acc + digit_value c) s'
  end.

(** The text before the first ["."] and, if there is one, the text after. *)
Fixpoint split_dot (s : string) : string * option string :=
  match s with
  | EmptyString => (EmptyString, None)
  | String c s' =>
      if Ascii.eqb c "." then (EmptyString, Some s')
      else let '(i, f) := split_dot s' in (String c i, f)
  end.

Definition float (s : string) : outcome Q :=
  let '(ip, fo) := split_dot s in
  let fp := match fo with Some f => f | None => EmptyString end in
  if PyStr.all_chars PyStr.is_digit ip && PyStr.all_chars PyStr.is_digit fp
     && negb (PyStr.is_empty (ip +:+ fp))
  then Return (digits_value 0 (ip +:+ fp) # pow10 (String.length fp))
  else Raise ValueError.

(** *** [x < y] on floats *)
Definition Qltb (x y : Q) : bool := negb (Qle_bool y x).

(** *** [max(l)]: the first greatest element; [ValueError] on [[]] *)
Definition max (l : list Q) : outcome Q :=
  match l with
  | [] => Raise ValueError
  | x :: l' => Return (fold_left (fun m y => if Qltb m y then y else m) l' x)
  end.

(** *** [l[i]] *)
Definition getitem {A : Type} (l : list A) (i : nat) : outcome A :=
  match nth_error l i with
  | Some x => Return x
  | None => Raise IndexError
  end.

(** *** [n / d] on non-negative integers *)
Definition truediv (n d : nat) : outcome Q :=
  match d with
  | O => Raise ZeroDivisionError
  | S _ => Return (Z.of_nat n # Pos.of_nat d)
  end.

(** *** [round(x, ndigits)]

    [round_half_even] is the nearest integer, a tie going to the even one. *)
Definition round_half_even (x : Q) : Z :=
  let f := Qfloor x in
  match Qcompare (x - inject_Z f) (1 # 2) with
  | Lt => f
  | Gt => (f + 1)%Z
  | Eq => if Z.even f then f else (f + 1)%Z
  end.

(** The float that Python holds for a quotient: the binary64 number
    nearest to it, a tie going to the even significand.  [floor_log2 x] is
    the exponent of a positive [x]: [2^k <= x < 2^(k+1)].  A significand
    has 53 bits, and no exponent lies below -1074; the upper end of the
    range is left out (the quotients of this program are at most 1). *)
Definition floor_log2 (x : Q) : Z :=
  let k := (Z.log2 (Qnum x) - Z.log2 (Zpos (Qden x)))%Z in
  if Qle_bool (2 ^ k) x then k else (k - 1)%Z.

Definition nearest_double (x : Q) : Q :=
  let e := Z.max (floor_log2 x - 52) (-1074) in
  inject_Z (round_half_even (x / 2 ^ e)) * 2 ^ e.

Definition to_double (x : Q) : Q :=
  match Qnum x with
  | Z0 => 0
  | Zpos _ => nearest_double x
  | Zneg _ => - nearest_double (- x)
  end.

(** [round] works on the float: the decimal of [ndigits] places nearest to
    the exact value of the binary64 number, a tie going to the even one.
    The result is kept as that decimal. *)
Definition round (x : Q) (ndigits : nat) : Q :=
  round_half_even (to_double x * inject_Z (Zpos (pow10 ndigits))) # pow10 ndigits.

(** *** [list.sort] and [sorted]

    Both are stable.  [before x y] says that [x] may stand in front of an
    [y] that followed it in the input: [x <= y] for an ascending sort,
    and [key y <= key x] for [reverse=True], which keeps equal keys in
    their input order. *)
Section Sort.
Context {A : Type} (before : A -> A -> bool).

Fixpoint insert (x : A) (l : list A) : list A :=
  match l with
  | [] => [x]
  | y :: l' => if before x y then x :: l else y :: insert x l'
  end.

Fixpoint sort (l : list A) : list A :=
  match l with
  | [] => []
  | x :: l' => insert x (sort l')
  end.
End Sort.

Definition sorted_str (l : list string) : list string := sort String.leb l.

(** *** [for x in xs: body], threading the loop state and stopping at
    the first exception *)
Fixpoint for_each {S A : Type} (body : S -> A -> outcome S) (xs : list A)
    (st : S) : outcome S :=
  match xs with
  | [] => Return st
  | x :: xs' => st' ← body st x; for_each body xs' st'
  end.

Fixpoint map_m {A B : Type} (f : A -> outcome B) (xs : list A) : outcome (list B) :=
  match xs with
  | [] => Return []
  | x :: xs' => y ← f x; ys ← map_m f xs'; Return (y :: ys)
  end.

End Py.

(** ** JSON values, as [json.loads] builds them *)

#[local] Set Warnings "-register-all".

Inductive json : Type :=
| JNull
| JBool (b : bool)
| JNum (q : Q)
| JStr (s : string)
| JArr (items : list json)
| JObj (fields : list (string * json)).

Module Json.

Definition truthy (v : json) : bool :=
  match v with
  | JNull => false
  | JBool b => b
  | JNum q => negb (Qeq_bool q 0)
  | JStr s => PyStr.truthy s
  | JArr l => match l with [] => false | _ => true end
  | JObj l => match l with [] => false | _ => true end
  end.

Fixpoint assoc (k : string) (fields : list (string * json)) : option json :=
  match fields with
  | [] => None
  | (k', v) :: rest => if String.eqb k k' then Some v else assoc k rest
  end.

(** [v.get(k)]: only a [dict] has the method. *)
Definition get (v : json) (k : string) : outcome (option json) :=
  match v with
  | JObj fields => Return (assoc k fields)
  | _ => Raise AttributeError
  end.

(** [x or d] *)
Definition or_else (x : option json) (d : json) : json :=
  match x with
  | Some v => if truthy v then v else d
  | None => d
  end.

Definition opt_truthy (x : option json) : bool :=
  match x with Some v => truthy v | None => false end.

End Json.

(** ** [ResumeProcessorFunction/app.py] *)

Module Processor.

Definition SKILL_KEYWORDS : list string :=
  [ "python"; "java"; "javascript"; "typescript"; "react"; "node";
    "node.js"; "aws"; "lambda"; "dynamodb"; "s3"; "kubernetes"; "docker";
    "sql"; "nosql"; "postgres"; "mysql"; "mongodb"; "terraform";
    "jenkins"; "git"; "rest"; "api"; "machine learning"; "data science";
    "pandas"; "numpy" ].

Definition title_keywords : list string :=
  [ "engineer"; "developer"; "manager"; "lead"; "architect"; "analyst" ].

Definition one_of (chars : string) (c : ascii) : bool :=
  PyStr.contains (String c EmptyString) chars.

(** [[A-Za-z0-9._%+-]] and [[A-Za-z0-9.-]] *)
Definition local_char (c : ascii) : bool :=
  PyStr.is_alpha c || PyStr.is_digit c || one_of "._%+-" c.
Definition domain_char (c : ascii) : bool :=
  PyStr.is_alpha c || PyStr.is_digit c || one_of ".-" c.

(** [[A-Za-z0-9._%+-]+@[A-Za-z0-9.-]+\.[A-Za-z]{2,}] *)
Definition email_re : Re.regex :=
  Re.Cat (Re.Rep local_char 1)
    (Re.Cat (Re.Chr "@")
      (Re.Cat (Re.Rep domain_char 1)
        (Re.Cat (Re.Chr ".") (Re.Rep PyStr.is_alpha 2)))).

(** [\d+(?:\.\d+)?] *)
Definition number_re : Re.regex :=
  Re.Cat (Re.Rep PyStr.is_digit 1)
         (Re.Opt (Re.Cat (Re.Chr ".") (Re.Rep PyStr.is_digit 1))).

(** [\s*\+?\s*years?] *)
Definition years_suffix_re : Re.regex :=
  Re.Cat (Re.Rep PyStr.is_space 0)
    (Re.Cat (Re.Opt (Re.Chr "+"))
      (Re.Cat (Re.Rep PyStr.is_space 0)
        (Re.Cat (Re.Lit "year") (Re.Opt (Re.Chr "s"))))).

(** [(\d+(?:\.\d+)?)\s*\+?\s*years?] *)
Definition years_re : Re.regex := Re.Cat (Re.Grp number_re) years_suffix_re.

Definition extract_email (text : string) : string :=
  match Re.search email_re text with
  | Some m => Re.whole m
  | None => EmptyString
  end.

Definition extract_experience_years (lower_text : string) : outcome Q :=
  let matches := Re.findall years_re lower_text in
  years ← Py.map_m Py.float matches;
  match years with
  | [] => Return 0%Q
  | _ :: _ => Py.max years
  end.

Definition extract_skills (lower_text : string) : gset string :=
  fold_left
    (fun found skill =>
       if PyStr.contains skill lower_text then found ∪ {[ skill ]} else found)
    SKILL_KEYWORDS ∅.

Definition extract_titles (lower_text : string) : gset string :=
  fold_left
    (fun titles line =>
       if existsb (fun word => PyStr.contains word line) title_keywords
       then titles ∪ {[ PyStr.strip line ]} else titles)
    (PyStr.splitlines lower_text) ∅.

Record profile : Type := {
  name : string;
  email : string;
  total_experience_years : Q;
  skills : list string;
  titles : list string;
  raw_text : string
}.

Definition parse_candidate_profile (text : string) : outcome profile :=
  let lines :=
    map PyStr.strip
        (filter (fun ln => PyStr.truthy (PyStr.strip ln)) (PyStr.splitlines text)) in
  let lower_text := PyStr.lower text in
  name ← match lines with
         | [] => Return "Unknown"
         | _ :: _ => Py.getitem lines 0
         end;
  let email := extract_email text in
  experience_years ← extract_experience_years lower_text;
  let skills := extract_skills lower_text in
  let titles := extract_titles lower_text in
  Return {| name := name;
            email := email;
            total_experience_years := experience_years;
            skills := Py.sorted_str (elements skills);
            titles := Py.sorted_str (elements titles);
            raw_text := PyStr.take 5000 text |}.

(** *** Matching *)

Definition jaccard_similarity (a b : gset string) : outcome Q :=
  if bool_decide (a = ∅) && bool_decide (b = ∅) then Return 0%Q
  else
    let intersection := size (a ∩ b) in
    let union := size (a ∪ b) in
    match union with
    | O => Return 0%Q
    | S _ => Py.truediv intersection union
    end.

(** A job item as the job table returns it. *)
Record job : Type := {
  jobId : option string;
  required_skills : list json
}.

(** One entry of the [matches] list. *)
Record match_entry : Type := { m_jobId : string; m_score : Q }.

Definition str_items (l : list json) : list string :=
  flat_map (fun v => match v with JStr s => [s] | _ => [] end) l.

Definition lower_set (l : list string) : gset string :=
  list_to_set (map PyStr.lower l).

(** The body of the loop over the jobs; [results] is the loop state. *)
Definition score_job (candidate_skills : gset string)
    (results : list (string * Q)) (j : job) : outcome (list (string * Q)) :=
  let required := lower_set (str_items (required_skills j)) in
  match jobId j with
  | None => Return results
  | Some job_id =>
      if negb (PyStr.truthy job_id) || bool_decide (required = ∅)
      then Return results
      else
        score ← jaccard_similarity candidate_skills required;
        if Py.Qltb 0 score then Return (results ++ [(job_id, score)])
        else Return results
  end.

(** [results.sort(key=lambda x: x[1], reverse=True)] *)
Definition sort_best_first (results : list (string * Q)) : list (string * Q) :=
  Py.sort (fun x y => Qle_bool (snd y) (snd x)) results.

Definition compute_matches (candidate : profile) (jobs : list job)
    : outcome (list match_entry) :=
  let candidate_skills := lower_set (skills candidate) in
  results ← Py.for_each (score_job candidate_skills) jobs [];
  let top := firstn 10 (sort_best_first results) in
  Return (map (fun '(jid, score) =>
                 {| m_jobId := jid; m_score := Py.round score 3 |}) top).

(** *** The queue consumer *)

(** A block of the text-recognition response. *)
Record block : Type := { BlockType : option string; Text : option string }.

(** A queue record; [r_body] is [None] when the record has no ["body"]. *)
Record sqs_record : Type := { r_body : option string }.

(** The stored item: the profile with the three fields the handler adds. *)
Record candidate : Type := {
  c_profile : profile;
  candidateId : string;
  sourceObjectKey : json;
  matches : list match_entry
}.

(** The candidate table and the supply of fresh identifiers. *)
Record store : Type := { candidate_items : list candidate; next_uuid : nat }.

Record response : Type := { statusCode : Z; r_message : string }.

Section Handler.
(** The environment and the services the handler calls. *)
Variables RESUME_BUCKET_NAME CANDIDATE_TABLE_NAME JOB_TABLE_NAME : string.
Variable json_loads : string -> outcome json.
Variable detect_document_text : json -> json -> outcome (list block).
Variable scan : outcome (list job).
Variable put_item : list candidate -> candidate -> outcome (list candidate).
Variable uuid4 : nat -> string.

Definition extract_text_with_textract (bucket key : json) : outcome string :=
  blocks ← detect_document_text bucket key;
  let lines :=
    flat_map (fun b =>
      match BlockType b, Text b with
      | Some ty, Some text =>
          if String.eqb ty "LINE" && PyStr.truthy text then [text] else []
      | _, _ => []
      end) blocks in
  Return (String.concat (String "010" EmptyString) lines).

Definition list_all_jobs : outcome (list job) := scan.

(** [record.get("body", "{}")] *)
Definition body_text (record : sqs_record) : string :=
  match r_body record with Some b => b | None => "{}" end.

(** What the loop does with a document reference once it has one. *)
Definition ingest (bucket key : json) (st : store) : outcome store :=
  full_text ← extract_text_with_textract bucket key;
  candidate_profile ← parse_candidate_profile full_text;
  let candidate_id := uuid4 (next_uuid st) in
  jobs ← list_all_jobs;
  found ← compute_matches candidate_profile jobs;
  items ← put_item (candidate_items st)
            {| c_profile := candidate_profile;
               candidateId := candidate_id;
               sourceObjectKey := key;
               matches := found |};
  Return {| candidate_items := items; next_uuid := S (next_uuid st) |}.

(** The body of the loop over [event["Records"]]. *)
Definition process_record (st : store) (record : sqs_record) : outcome store :=
  body ← json_loads (body_text record);
  b ← Json.get body "bucket";
  let bucket := Json.or_else b (JStr RESUME_BUCKET_NAME) in
  k ← Json.get body "key";
  match k with
  | Some key =>
      if negb (Json.truthy bucket) || negb (Json.truthy key)
      then Return st                                       (* continue *)
      else ingest bucket key st
  | None => Return st                                      (* continue *)
  end.

Definition lambda_handler (records : list sqs_record) (st : store)
    : outcome (store * response) :=
  if negb (PyStr.truthy CANDIDATE_TABLE_NAME) || negb (PyStr.truthy JOB_TABLE_NAME)
  then Raise (RuntimeError "DynamoDB tables are not configured")
  else
    st' ← Py.for_each process_record records st;
    Return (st', {| statusCode := 200; r_message := "Processed resumes" |}).
End Handler.

End Processor.

(** ** [src/api/app.py] *)

Module Api.

(** The fields of the proxy event that the handler reads; [None] is an
    absent key. *)
Record event : Type := {
  path : option string;
  resource : option string;
  httpMethod : option string;
  body : option string
}.

(** [body] is the value handed to [json.dumps]. *)
Record response : Type := {
  statusCode : Z;
  headers : list (string * string);
  r_body : json
}.

(** A table item is a [dict]. *)
Definition item : Type := list (string * json).

(** [job_items]: the jobs handed to the job table and accepted by it, in
    the order of the calls; [candidate_items]: the candidate table. *)
Record store : Type := {
  job_items : list item;
  candidate_items : list item;
  next_uuid : nat
}.

Definition _response (status_code : Z) (body : json) : response :=
  {| statusCode := status_code;
     headers := [ ("Content-Type", "application/json");
                  ("Access-Control-Allow-Origin", "*") ];
     r_body := body |}.

Definition message (text : string) : json := JObj [("message", JStr text)].

(** [s.split(sep)] for a one-character separator. *)
Fixpoint split (sep : ascii) (s : string) : list string :=
  match s with
  | EmptyString => [EmptyString]
  | String c s' =>
      if Ascii.eqb c sep then EmptyString :: split sep s'
      else match split sep s' with
           | [] => [String c EmptyString]
           | w :: ws => String c w :: ws
           end
  end.

(** [l.index(x)] for an [x] known to occur, and [l[i:]]. *)
Fixpoint index (x : string) (l : list string) : nat :=
  match l with
  | [] => O
  | y :: l' => if String.eqb x y then O else S (index x l')
  end.

Definition get_or (d : json) (k : string) (it : item) : json :=
  match Json.assoc k it with Some v => v | None => d end.

Section Handler.
Variables CANDIDATE_TABLE_NAME JOB_TABLE_NAME : string.
Variable json_loads : string -> outcome json.
Variable uuid4 : nat -> string.
(** [str(exc)] *)
Variable str_exc : exn -> string.
(** The job table.  The store keeps the items the table has accepted, in
    the order of the calls; what the table answers is its own affair:
    [job_scan] is the ["Items"] of [job_table.scan()] and [job_put_item]
    the outcome of [job_table.put_item(Item=item)], each given the items
    accepted so far. *)
Variable job_scan : list item -> outcome (list item).
Variable job_put_item : list item -> item -> outcome unit.

Definition _parse_body (body_str : option string) : outcome json :=
  match body_str with
  | None => Return (JObj [])
  | Some b =>
      if negb (PyStr.truthy b) then Return (JObj [])
      else match json_loads b with
           | Return v => Return v
           | Raise JSONDecodeError => Return (JObj [])
           | Raise e => Raise e
           end
  end.

Definition list_jobs (st : store) : outcome (store * response) :=
  items ← job_scan (job_items st);
  Return (st, _response 200 (JObj [("items", JArr (map JObj items))])).

Definition create_job (body : json) (st : store) : outcome (store * response) :=
  title ← Json.get body "title";
  d ← Json.get body "description";
  let description := match d with Some v => v | None => JStr EmptyString end in
  r ← Json.get body "required_skills";
  let required_skills := Json.or_else r (JArr []) in
  if negb (Json.opt_truthy title)
  then Return (st, _response 400 (message "title is required"))
  else
    let job_id := uuid4 (next_uuid st) in
    let it : item :=
      [ ("jobId", JStr job_id);
        ("title", match title with Some v => v | None => JNull end);
        ("description", description);
        ("required_skills", required_skills) ] in
    _ ← job_put_item (job_items st) it;
    Return ({| job_items := job_items st ++ [it];
               candidate_items := candidate_items st;
               next_uuid := S (next_uuid st) |},
            _response 201 (JObj it)).

Definition list_candidates (st : store) : outcome (store * response) :=
  let minimal :=
    map (fun it =>
           JObj [ ("candidateId", get_or JNull "candidateId" it);
                  ("name", get_or JNull "name" it);
                  ("email", get_or JNull "email" it);
                  ("total_experience_years", get_or JNull "total_experience_years" it);
                  ("skills", get_or (JArr []) "skills" it);
                  ("matches", get_or (JArr []) "matches" it) ])
        (candidate_items st) in
  Return (st, _response 200 (JObj [("items", JArr minimal)])).

Definition get_item (candidate_id : string) (st : store) : option item :=
  find (fun it =>
          match Json.assoc "candidateId" it with
          | Some (JStr i) => String.eqb i candidate_id
          | _ => false
          end)
       (candidate_items st).

Definition get_candidate (candidate_id : string) (st : store)
    : outcome (store * response) :=
  match get_item candidate_id st with
  | None => Return (st, _response 404 (message "Candidate not found"))
  | Some it => Return (st, _response 200 (JObj it))
  end.

Definition get_candidate_report (candidate_id : string) (st : store)
    : outcome (store * response) :=
  match get_item candidate_id st with
  | None => Return (st, _response 404 (message "Candidate not found"))
  | Some it =>
      Return (st,
        {| statusCode := 200;
           headers :=
             [ ("Content-Type", "application/json");
               ("Content-Disposition",
                "attachment; filename=" +:+ String "034" "candidate-"
                  +:+ candidate_id +:+ ".json" +:+ String "034" EmptyString);
               ("Access-Control-Allow-Origin", "*") ];
           r_body := JObj it |})
  end.

(** The part of the handler under [try]. *)
Definition route (path http_method : string) (ev : event) (st : store)
    : outcome (store * response) :=
  let not_found := Return (st, _response 404 (message "Not found")) in
  let candidates_routes :=
    if String.eqb http_method "GET" then
      let parts := filter PyStr.truthy (split "/" path) in
      if match last parts with
         | Some last_part => String.eqb last_part "candidates"
         | None => false
         end && (length parts <=? 2)%nat
      then list_candidates st
      else if existsb (String.eqb "candidates") parts then
        let rest := skipn (index "candidates" parts + 1) parts in
        match rest with
        | [i] => get_candidate i st
        | [i; r] => if String.eqb r "report" then get_candidate_report i st
                    else not_found
        | _ => not_found
        end
      else not_found
    else not_found in
  if String.prefix "/jobs" path then
    if String.eqb http_method "GET" then list_jobs st
    else if String.eqb http_method "POST" then
      b ← _parse_body (body ev);
      create_job b st
    else candidates_routes
  else candidates_routes.

Definition lambda_handler (ev : event) (st : store) : store * response :=
  if negb (PyStr.truthy CANDIDATE_TABLE_NAME) || negb (PyStr.truthy JOB_TABLE_NAME)
  then (st, _response 500 (message "Tables not configured"))
  else
    let path :=
      let p := match path ev with Some p => p | None => EmptyString end in
      if PyStr.truthy p then p
      else match resource ev with Some r => r | None => EmptyString end in
    let http_method :=
      PyStr.upper (match httpMethod ev with Some m => m | None => "GET" end) in
    match route path http_method ev st with
    | Return out => out
    | Raise exc => (st, _response 500 (message ("Internal error: " +:+ str_exc exc)))
    end.
End Handler.

End Api.

(** ** [EnqueueResumeFunction/app.py] *)

Module Enqueue.

Record response : Type := { statusCode : Z; r_message : string }.

(** [v.get(k, d)] *)
Definition get_default (v : json) (k : string) (d : json) : outcome json :=
  x ← Json.get v k;
  Return (match x with Some y => y | None => d end).

Section Handler.
Variable QUEUE_URL : string.
Variable json_dumps : json -> string.
(** [sqs.send_message]: the queue before, the message body, the queue
    after. *)
Variable send_message : list string -> string -> outcome (list string).

(** The body of the loop over the records of the storage event; the loop
    state is the queue. *)
Definition enqueue_record (queue : list string) (record : json) : outcome (list string) :=
  s3_info ← get_default record "s3" (JObj []);
  b ← get_default s3_info "bucket" (JObj []);
  bucket ← Json.get b "name";
  o ← get_default s3_info "object" (JObj []);
  key ← Json.get o "key";
  match bucket, key with
  | Some bucket, Some key =>
      if negb (Json.truthy bucket) || negb (Json.truthy key)
      then Return queue                                        (* continue *)
      else
        let message_body := json_dumps (JObj [("bucket", bucket); ("key", key)]) in
        send_message queue message_body
  | _, _ => Return queue                                       (* continue *)
  end.

Definition lambda_handler (records : list json) (queue : list string)
    : outcome (list string * response) :=
  if negb (PyStr.truthy QUEUE_URL)
  then Raise (RuntimeError "RESUME_QUEUE_URL is not configured")
  else
    queue' ← Py.for_each enqueue_record records queue;
    Return (queue', {| statusCode := 200;
                       r_message := "Enqueued resumes for processing" |}).
End Handler.

End Enqueue.

(** * Properties *)

(** ** Strings *)

Section StrFacts.
Import PyStr.

Lemma app_cons c (s t : string) : String c s +:+ t = String c (s +:+ t).
Proof. reflexivity. Qed.

Lemma app_empty_l (s : string) : EmptyString +:+ s = s.
Proof. reflexivity. Qed.

Lemma app_empty_r (s : string) : s +:+ EmptyString = s.
Proof. induction s as [|c s IH]; [reflexivity|]. rewrite app_cons, IH. reflexivity. Qed.

Lemma app_assoc_str (s t u : string) : (s +:+ t) +:+ u = s +:+ (t +:+ u).
Proof.
  induction s as [|c s IH]; [reflexivity|].
  rewrite !app_cons, IH. reflexivity.
Qed.

Lemma length_app_str (s t : string) :
  String.length (s +:+ t) = String.length s + String.length t.
Proof.
  induction s as [|c s IH]; [reflexivity|].
  rewrite app_cons. simpl. rewrite IH. reflexivity.
Qed.

Lemma take_app_exact (w s : string) :
  take (String.length (w +:+ s) - String.length s) (w +:+ s) = w.
Proof.
  rewrite length_app_str.
  replace (String.length w + String.length s - String.length s)
    with (String.length w) by lia.
  induction w as [|c w IH]; simpl.
  - destruct s; reflexivity.
  - f_equal. exact IH.
Qed.

Lemma app_eq_empty (s t : string) :
  s +:+ t = EmptyString -> s = EmptyString /\ t = EmptyString.
Proof. destruct s; [auto | discriminate]. Qed.

Lemma is_empty_true (s : string) : is_empty s = true <-> s = EmptyString.
Proof. destruct s; simpl; split; congruence. Qed.

Lemma all_chars_app p (s t : string) :
  all_chars p (s +:+ t) = all_chars p s && all_chars p t.
Proof.
  induction s as [|c s IH]; [reflexivity|].
  rewrite app_cons. simpl. rewrite IH. apply andb_assoc.
Qed.

Lemma all_chars_weaken (p q : ascii -> bool) (s : string) :
  (forall c, p c = true -> q c = true) ->
  all_chars p s = true -> all_chars q s = true.
Proof.
  intros Hpq. induction s as [|c s IH]; simpl; [auto|].
  rewrite !andb_true_iff. intros [Hc Hs]. auto.
Qed.

(** Induction on strings that may peel two characters at once. *)
Lemma string_ind_len (P : string -> Prop) :
  (forall s, (forall t, String.length t < String.length s -> P t) -> P s) ->
  forall s, P s.
Proof.
  intros step s.
  assert (H : forall n t, String.length t < n -> P t).
  { induction n as [|n IH]; intros t Ht; [lia|].
    apply step. intros u Hu. apply IH. lia. }
  apply (H (S (String.length s))). lia.
Qed.

(** *** [strip] and blank text *)

Definition blank (s : string) : bool := all_chars is_space s.

Lemma lstrip_blank (s : string) : blank s = true -> lstrip s = EmptyString.
Proof.
  unfold blank. induction s as [|c s IH]; simpl; [auto|].
  rewrite andb_true_iff. intros [Hc Hs]. rewrite Hc. auto.
Qed.

Lemma lstrip_head (s : string) :
  match lstrip s with
  | EmptyString => blank s = true
  | String c _ => is_space c = false
  end.
Proof.
  unfold blank. induction s as [|c s IH]; simpl; [reflexivity|].
  destruct (is_space c) eqn:Hc; simpl; [|exact Hc].
  destruct (lstrip s); auto.
Qed.

Lemma rstrip_empty (s : string) : rstrip s = EmptyString <-> blank s = true.
Proof.
  unfold blank. induction s as [|c s IH]; simpl; [tauto|].
  destruct (is_space c) eqn:Hc; simpl.
  - destruct (rstrip s) eqn:Hr; simpl.
    + split; [intros _; apply IH; reflexivity | reflexivity].
    + split; [discriminate|]. intros Hs. apply IH in Hs. discriminate.
  - split; discriminate.
Qed.

Lemma strip_empty (s : string) : strip s = EmptyString <-> blank s = true.
Proof.
  unfold strip. rewrite rstrip_empty. split.
  - intros H. pose proof (lstrip_head s) as Hh.
    destruct (lstrip s) as [|c r] eqn:Hl; [exact Hh|].
    unfold blank in H. simpl in H. rewrite Hh in H. discriminate.
  - intros H. rewrite (lstrip_blank s H). reflexivity.
Qed.

Lemma linebreak_is_space c : is_linebreak c = true -> is_space c = true.
Proof.
  unfold is_linebreak, is_space, between.
  rewrite !orb_true_iff, !andb_true_iff, !Nat.leb_le, !Nat.eqb_eq. lia.
Qed.

(** A text is blank exactly when each of its lines is. *)
Lemma blank_splitlines (s : string) :
  blank s = true <-> Forall (fun ln => blank ln = true) (splitlines s).
Proof.
  unfold blank. induction s as [s IH] using string_ind_len.
  destruct s as [|c s]; [simpl; split; auto|].
  assert (IHs : all_chars is_space s = true <-> Forall (fun ln => all_chars is_space ln = true) (splitlines s))
    by (apply IH; simpl; lia).
  cbn [splitlines]. destruct (is_linebreak c) eqn:Hb.
  - assert (Hc : is_space c = true) by (apply linebreak_is_space; exact Hb).
    assert (Hdef : all_chars is_space (String c s) = true <->
                   Forall (fun ln => all_chars is_space ln = true)
                          (EmptyString :: splitlines s)).
    { simpl. rewrite Hc. simpl. rewrite IHs. split.
      - intros H. constructor; [reflexivity | exact H].
      - intros H. inversion H; assumption. }
    destruct (Ascii.eqb c "013") eqn:Hcr.
    + apply Ascii.eqb_eq in Hcr. subst c.
      destruct s as [|d s'']; [exact Hdef|].
      destruct (Ascii.eqb d "010") eqn:Hlf.
      * apply Ascii.eqb_eq in Hlf. subst d.
        assert (IH2 : all_chars is_space s'' = true <->
                      Forall (fun ln => all_chars is_space ln = true) (splitlines s''))
          by (apply IH; simpl; lia).
        simpl. rewrite IH2. split.
        -- intros H. constructor; [reflexivity | exact H].
        -- intros H. inversion H; assumption.
      * assert (Hm : match "013"%char, String d s'' with
                     | "013"%char, String "010"%char t => EmptyString :: splitlines t
                     | _, _ => EmptyString :: splitlines (String d s'')
                     end = EmptyString :: splitlines (String d s'')).
        { apply Ascii.eqb_neq in Hlf.
          destruct d as [[] [] [] [] [] [] [] []]; try reflexivity. congruence. }
        rewrite Hm. exact Hdef.
    + assert (Hm : match c, s with
                   | "013"%char, String "010"%char t => EmptyString :: splitlines t
                   | _, _ => EmptyString :: splitlines s
                   end = EmptyString :: splitlines s).
      { apply Ascii.eqb_neq in Hcr.
        destruct c as [[] [] [] [] [] [] [] []]; try reflexivity. congruence. }
      rewrite Hm. exact Hdef.
  - simpl. destruct (splitlines s) as [|l ls] eqn:Hsp.
    + split.
      * intros H. constructor; [|constructor]. simpl.
        apply andb_true_iff in H. destruct H as [-> _]. reflexivity.
      * intros H. inversion H as [|? ? Hl _]; subst. simpl in Hl.
        apply andb_true_iff in Hl. destruct Hl as [Hc _]. rewrite Hc. simpl.
        apply IHs. constructor.
    + rewrite andb_true_iff, IHs. split.
      * intros [Hc H]. inversion H; subst. constructor; [|assumption].
        simpl. rewrite Hc. assumption.
      * intros H. inversion H as [|? ? Hl Hls]; subst. simpl in Hl.
        apply andb_true_iff in Hl. destruct Hl. split; [assumption|].
        constructor; assumption.
Qed.

End StrFacts.

(** ** The matching engine against what a pattern denotes *)

Section ReFacts.
Import PyStr Re.

(** After a successful run, group 1 is as before or holds a word of one
    of the pattern's groups. *)
Definition captured (r : regex) (g g' : option string) : Prop :=
  g' = g \/ exists r0 u, In r0 (groups r) /\ denotes r0 u /\ g' = Some u.

Lemma rep_sound {R : Type} p lo (k : string -> option R) s x :
  rep p lo k s = Some x ->
  exists w s', s = w +:+ s' /\ all_chars p w = true /\
               lo <= String.length w /\ k s' = Some x.
Proof.
  revert lo. induction s as [|c s IH]; intros lo H.
  - exists EmptyString, EmptyString. destruct lo; simpl in H; [|discriminate].
    repeat split; auto.
  - assert (Hstop : match lo with O => k (String c s) | S _ => None end = Some x ->
                    exists w s', String c s = w +:+ s' /\ all_chars p w = true /\
                                 lo <= String.length w /\ k s' = Some x).
    { intros Hs. destruct lo; [|discriminate].
      exists EmptyString, (String c s). repeat split; auto. }
    simpl in H. destruct (p c) eqn:Hc; [|auto].
    destruct (rep p (Nat.pred lo) k s) as [y|] eqn:Hr; [|auto].
    injection H as ->.
    destruct (IH _ Hr) as (w & s' & -> & Hw & Hlo & Hk).
    exists (String c w), s'. simpl. rewrite Hc, Hw. repeat split; auto. lia.
Qed.

Lemma rep_complete {R : Type} p lo (k : string -> option R) w s' :
  all_chars p w = true -> lo <= String.length w -> k s' <> None ->
  rep p lo k (w +:+ s') <> None.
Proof.
  revert lo. induction w as [|c w IH]; intros lo Hw Hlo Hk.
  - simpl in Hlo. assert (lo = 0) by lia. subst lo. rewrite app_empty_l.
    destruct s' as [|c s]; simpl; [exact Hk|].
    destruct (p c); [|exact Hk].
    destruct (rep p 0 k s); [discriminate | exact Hk].
  - simpl in Hw. apply andb_true_iff in Hw. destruct Hw as [Hc Hw].
    simpl. rewrite Hc.
    assert (Hin : rep p (Nat.pred lo) k (w +:+ s') <> None).
    { apply IH; auto. simpl in Hlo. lia. }
    destruct (rep p (Nat.pred lo) k (w +:+ s')); [discriminate | congruence].
Qed.

Lemma run_sound {R : Type} r :
  forall s g (k : string -> option string -> option R) x,
    run r s g k = Some x ->
    exists w s' g', s = w +:+ s' /\ denotes r w /\ k s' g' = Some x /\
                    captured r g g'.
Proof.
  induction r as [c|p|r1 IH1 r2 IH2|r1 IH1|p lo|r1 IH1]; intros s g k x H; simpl in H.
  - destruct s as [|c' s']; [discriminate|].
    destruct (Ascii.eqb c c') eqn:Hc; [|discriminate].
    apply Ascii.eqb_eq in Hc. subst c'.
    exists (String c EmptyString), s', g. repeat split; auto.
    + constructor.
    + left; reflexivity.
  - destruct s as [|c' s']; [discriminate|].
    destruct (p c') eqn:Hc; [|discriminate].
    exists (String c' EmptyString), s', g. repeat split; auto.
    + constructor; assumption.
    + left; reflexivity.
  - apply IH1 in H. destruct H as (w1 & s1 & g1 & -> & Hm1 & H & Hc1).
    apply IH2 in H. destruct H as (w2 & s2 & g2 & -> & Hm2 & H & Hc2).
    exists (w1 +:+ w2), s2, g2. rewrite app_assoc_str. repeat split; auto.
    + constructor; assumption.
    + unfold captured in *. simpl.
      destruct Hc2 as [-> | (r0 & u & Hin & Hu & ->)].
      * destruct Hc1 as [-> | (r0 & u & Hin & Hu & ->)]; [left; reflexivity|].
        right. exists r0, u. rewrite in_app_iff. auto.
      * right. exists r0, u. rewrite in_app_iff. auto.
  - destruct (run r1 s g k) as [y|] eqn:Hr.
    + injection H as ->. apply IH1 in Hr.
      destruct Hr as (w & s' & g' & -> & Hm & Hk & Hc).
      exists w, s', g'. repeat split; auto. apply d_opt_some. assumption.
    + exists EmptyString, s, g. repeat split; auto.
      * apply d_opt_none.
      * left; reflexivity.
  - apply rep_sound in H. destruct H as (w & s' & -> & Hw & Hlo & Hk).
    exists w, s', g. repeat split; auto.
    + constructor; assumption.
    + left; reflexivity.
  - apply IH1 in H. destruct H as (w & s' & g' & -> & Hm & Hk & Hc).
    rewrite take_app_exact in Hk.
    exists w, s', (Some w). repeat split; auto.
    + constructor; assumption.
    + right. exists r1, w. simpl. auto.
Qed.

Lemma run_complete {R : Type} r w :
  denotes r w ->
  forall s' g (k : string -> option string -> option R),
    (forall g', k s' g' <> None) -> run r (w +:+ s') g k <> None.
Proof.
  induction 1 as [c|p c Hc|r1 r2 w1 w2 _ IH1 _ IH2|r1|r1 w _ IH|p lo w Hw Hlo|r1 w _ IH];
    intros s' g k Hk; simpl.
  - rewrite Ascii.eqb_refl. apply Hk.
  - rewrite Hc. apply Hk.
  - rewrite app_assoc_str. apply IH1. intros g'. apply IH2. exact Hk.
  - rewrite app_empty_l. destruct (run r1 s' g k); [discriminate | apply Hk].
  - specialize (IH s' g k Hk).
    destruct (run r1 (w +:+ s') g k); [discriminate | congruence].
  - apply rep_complete; auto.
  - apply IH. intros g'. apply Hk.
Qed.

(** [w] is a prefix of [s]. *)
Definition starts_with (w s : string) : Prop := exists post, s = w +:+ post.

Lemma match_at_sound r s m :
  match_at r s = Some m ->
  starts_with (whole m) s /\ denotes r (whole m) /\ captured r None (group1 m).
Proof.
  unfold match_at. intros H. apply run_sound in H.
  destruct H as (w & s' & g' & -> & Hm & Hk & Hc).
  rewrite take_app_exact in Hk. injection Hk as <-. simpl.
  split; [exists s'; reflexivity | auto].
Qed.

Lemma match_at_complete r s w :
  starts_with w s -> denotes r w -> match_at r s <> None.
Proof.
  intros [post ->] Hm. unfold match_at.
  apply run_complete; [exact Hm | discriminate].
Qed.

Lemma occurs_at_0 w s : occurs_at w 0 s <-> starts_with w s.
Proof.
  unfold occurs_at, starts_with. split.
  - intros (pre & post & -> & Hl). destruct pre; [|discriminate].
    exists post. reflexivity.
  - intros (post & ->). exists EmptyString, post. auto.
Qed.

Lemma occurs_at_S w i c s : occurs_at w (S i) (String c s) <-> occurs_at w i s.
Proof.
  unfold occurs_at. split.
  - intros (pre & post & Heq & Hl). destruct pre as [|c' pre]; [discriminate|].
    simpl in Heq, Hl. injection Heq as -> ->. exists pre, post. split; auto.
  - intros (pre & post & -> & Hl). exists (String c pre), post. simpl. auto.
Qed.

Lemma occurs_at_S_empty w i : ~ occurs_at w (S i) EmptyString.
Proof. intros (pre & post & Heq & Hl). destruct pre; discriminate. Qed.


Lemma search_none r s :
  search r s = None <-> (forall i w, occurs_at w i s -> ~ denotes r w).
Proof.
  induction s as [|c s IH]; simpl.
  - destruct (match_at r EmptyString) as [m|] eqn:Hm.
    + split; [discriminate|]. intros H. exfalso.
      apply match_at_sound in Hm. destruct Hm as (Hs & Hm & _).
      apply (H 0 (whole m)); [apply occurs_at_0; exact Hs | exact Hm].
    + split; [|reflexivity]. intros _ [|i] w Hi Hw.
      * apply occurs_at_0 in Hi. exact (match_at_complete _ _ _ Hi Hw Hm).
      * exact (occurs_at_S_empty _ _ Hi).
  - destruct (match_at r (String c s)) as [m|] eqn:Hm.
    + split; [discriminate|]. intros H. exfalso.
      apply match_at_sound in Hm. destruct Hm as (Hs & Hm & _).
      apply (H 0 (whole m)); [apply occurs_at_0; exact Hs | exact Hm].
    + rewrite IH. split.
      * intros H [|i] w Hi Hw.
        -- apply occurs_at_0 in Hi. exact (match_at_complete _ _ _ Hi Hw Hm).
        -- apply occurs_at_S in Hi. exact (H _ _ Hi Hw).
      * intros H i w Hi Hw. apply (H (S i) w); [apply occurs_at_S; exact Hi | exact Hw].
Qed.

End ReFacts.

(** ** Scanning, captured numbers and [float] *)

Section ScanFacts.
Import PyStr Re.

(** Every match that [scan] reports is an anchored match of a suffix of
    the text. *)
Lemma scan_sound r s : forall n m,
  In m (scan r n s) ->
  exists pre t, s = pre +:+ t /\ match_at r t = Some m.
Proof.
  induction s as [|c s IH]; intros n m Hin.
  - destruct n; simpl in Hin; [|contradiction].
    destruct (match_at r EmptyString) as [m'|] eqn:Hm; [|contradiction].
    destruct Hin as [<- | []]. exists EmptyString, EmptyString. auto.
  - assert (Htail : forall n', In m (scan r n' s) ->
              exists pre t, String c s = pre +:+ t /\ match_at r t = Some m).
    { intros n' H. destruct (IH _ _ H) as (pre & t & -> & Ht).
      exists (String c pre), t. auto. }
    destruct n; simpl in Hin; [|eauto].
    destruct (match_at r (String c s)) as [m'|] eqn:Hm; [|eauto].
    destruct Hin as [<- | Hin]; [|eauto].
    exists EmptyString, (String c s). auto.
Qed.

(** [scan] finds nothing exactly when the text holds no word of the
    pattern. *)
Lemma scan_nil r s :
  scan r 0 s = [] <-> (forall i w, occurs_at w i s -> ~ denotes r w).
Proof.
  rewrite <- search_none.
  induction s as [|c s IH]; simpl.
  - destruct (match_at r EmptyString); split; congruence.
  - destruct (match_at r (String c s)); [split; congruence | exact IH].
Qed.

Lemma captured_no_groups r g g' : groups r = [] -> captured r g g' -> g' = g.
Proof.
  intros Hg [H | (r0 & u & Hin & _)]; [exact H|]. rewrite Hg in Hin. destruct Hin.
Qed.

(** A pattern [(r1)r2] whose only group is the leading one: the match
    splits into the captured word of [r1] and a word of [r2]. *)
Lemma match_at_group r1 r2 t m :
  groups r2 = [] ->
  match_at (Cat (Grp r1) r2) t = Some m ->
  exists u v, whole m = u +:+ v /\ group1 m = Some u /\
              denotes r1 u /\ denotes r2 v.
Proof.
  intros Hg H. unfold match_at in H. cbn [run] in H.
  apply run_sound in H. destruct H as (u & s1 & g1 & -> & Hu & H & _).
  rewrite take_app_exact in H.
  apply run_sound in H. destruct H as (v & s2 & g2 & -> & Hv & H & Hc).
  apply (captured_no_groups _ _ _ Hg) in Hc. subst g2.
  rewrite <- app_assoc_str, take_app_exact in H. injection H as <-.
  exists u, v. simpl. auto.
Qed.

End ScanFacts.

Section FloatFacts.
Import PyStr Re Processor.

Lemma digit_not_dot c : is_digit c = true -> Ascii.eqb c "." = false.
Proof.
  intros H. apply Ascii.eqb_neq. intros ->. vm_compute in H. discriminate.
Qed.

Lemma split_dot_digits ip rest :
  all_chars is_digit ip = true ->
  Py.split_dot (ip +:+ rest) =
    let '(i, f) := Py.split_dot rest in (ip +:+ i, f).
Proof.
  induction ip as [|c ip IH]; intros H.
  - rewrite app_empty_l. destruct (Py.split_dot rest). reflexivity.
  - simpl in H. apply andb_true_iff in H. destruct H as [Hc H].
    rewrite app_cons. simpl. rewrite (digit_not_dot _ Hc), (IH H).
    destruct (Py.split_dot rest). reflexivity.
Qed.

Lemma digit_value_nonneg c : is_digit c = true -> (0 <= Py.digit_value c)%Z.
Proof.
  unfold is_digit, between, Py.digit_value.
  rewrite andb_true_iff, !Nat.leb_le. lia.
Qed.

Lemma digits_value_nonneg s : forall acc,
  all_chars is_digit s = true -> (0 <= acc)%Z -> (0 <= Py.digits_value acc s)%Z.
Proof.
  induction s as [|c s IH]; intros acc H Hacc; simpl; [exact Hacc|].
  simpl in H. apply andb_true_iff in H. destruct H as [Hc H].
  apply IH; [exact H|]. pose proof (digit_value_nonneg _ Hc). lia.
Qed.

(** The words of [\d+(?:\.\d+)?]. *)
Definition is_number (u : string) : Prop :=
  exists ip, all_chars is_digit ip = true /\ ip <> EmptyString /\
    (u = ip \/
     exists fp, all_chars is_digit fp = true /\ fp <> EmptyString /\
                u = ip +:+ "." +:+ fp).

Lemma nonempty_of_length (s : string) n : S n <= String.length s -> s <> EmptyString.
Proof. destruct s; simpl; [lia | discriminate]. Qed.

Lemma number_re_shape u : denotes number_re u -> is_number u.
Proof.
  unfold number_re. intros H.
  inversion H as [| |? ? ip rest Hip Hrest| | | |]; subst.
  inversion Hip as [| | | | |? ? ? Hd Hlen|]; subst.
  exists ip. split; [exact Hd|]. split; [exact (nonempty_of_length _ _ Hlen)|].
  inversion Hrest as [| | |?|? ? Hf| |]; subst.
  - left. apply app_empty_r.
  - right. inversion Hf as [| |? ? dot fp Hdot Hfp| | | |]; subst.
    inversion Hdot; subst.
    inversion Hfp as [| | | | |? ? ? Hd' Hlen'|]; subst.
    exists fp. split; [exact Hd'|]. split; [exact (nonempty_of_length _ _ Hlen')|].
    reflexivity.
Qed.

(** [float] accepts every number the pattern captures, and the value is
    not negative. *)
Lemma float_number u :
  is_number u -> exists q, Py.float u = Return q /\ (0 <= q)%Q.
Proof.
  intros (ip & Hip & Hne & [-> | (fp & Hfp & Hfne & ->)]).
  - unfold Py.float.
    pose proof (split_dot_digits ip EmptyString Hip) as Hs.
    cbn [Py.split_dot] in Hs. rewrite !app_empty_r in Hs. rewrite Hs.
    rewrite !app_empty_r, Hip.
    destruct ip as [|c ip]; [congruence|]. cbn [all_chars is_empty andb negb].
    eexists. split; [reflexivity|].
    pose proof (digits_value_nonneg _ 0 Hip ltac:(lia)) as Hv.
    unfold Qle. cbn [Qnum Qden]. lia.
  - unfold Py.float. rewrite (split_dot_digits _ _ Hip).
    change (Py.split_dot ("." +:+ fp)) with (@pair string (option string) EmptyString (Some fp)).
    cbn iota beta. rewrite app_empty_r, Hip, Hfp.
    destruct ip as [|c ip]; [congruence|]. cbn [is_empty andb negb String.append].
    eexists. split; [reflexivity|].
    assert (Hall : all_chars is_digit (String c (ip +:+ fp)) = true)
      by (rewrite <- app_cons, all_chars_app, Hip, Hfp; reflexivity).
    pose proof (digits_value_nonneg _ 0 Hall ltac:(lia)) as Hv.
    change (String c (ip +:+ fp)) with (String c ip +:+ fp) in Hv.
    unfold Qle. cbn [Qnum Qden]. lia.
Qed.

End FloatFacts.

(** ** Built-ins: [max], [map_m], [for_each] *)

Section BuiltinFacts.

Lemma Return_inj {A : Type} (a b : A) : Return a = Return b -> a = b.
Proof. intros H. injection H as ->. reflexivity. Qed.

Lemma Qltb_true x y : Py.Qltb x y = true <-> (x < y)%Q.
Proof.
  unfold Py.Qltb. rewrite negb_true_iff. split.
  - intros H. apply Qnot_le_lt. intros Hle.
    apply Qle_bool_iff in Hle. congruence.
  - intros H. destruct (Qle_bool y x) eqn:E; [|reflexivity].
    apply Qle_bool_iff in E. exfalso. exact (Qlt_not_le _ _ H E).
Qed.

Lemma Qltb_false x y : Py.Qltb x y = false <-> (y <= x)%Q.
Proof.
  unfold Py.Qltb. rewrite negb_false_iff. apply Qle_bool_iff.
Qed.

Lemma fold_max_spec (l : list Q) : forall x,
  let m := fold_left (fun m y => if Py.Qltb m y then y else m) l x in
  (m = x \/ In m l) /\ (x <= m)%Q /\ Forall (fun y => (y <= m)%Q) l.
Proof.
  induction l as [|y l IH]; intros x; simpl.
  - split; [left; reflexivity|]. split; [apply Qle_refl | constructor].
  - destruct (Py.Qltb x y) eqn:E.
    + destruct (IH y) as (Hin & Hle & Hall). apply Qltb_true in E.
      split; [destruct Hin as [-> | Hin]; auto|].
      split; [apply Qle_trans with y; [apply Qlt_le_weak; exact E | exact Hle]|].
      constructor; assumption.
    + destruct (IH x) as (Hin & Hle & Hall). apply Qltb_false in E.
      split; [destruct Hin as [-> | Hin]; auto|].
      split; [exact Hle|].
      constructor; [apply Qle_trans with x; assumption | exact Hall].
Qed.

(** [max] of a non-empty list is one of its elements and bounds them all. *)
Lemma max_spec (x : Q) (l : list Q) :
  exists m, Py.max (x :: l) = Return m /\ In m (x :: l) /\
            Forall (fun y => (y <= m)%Q) (x :: l).
Proof.
  eexists. split; [reflexivity|].
  destruct (fold_max_spec l x) as (Hin & Hle & Hall).
  split; [simpl; destruct Hin; auto | constructor; assumption].
Qed.

Lemma map_m_returns {A B : Type} (f : A -> outcome B) (P : A -> B -> Prop)
    (xs : list A) :
  (forall x, In x xs -> exists y, f x = Return y /\ P x y) ->
  exists ys, Py.map_m f xs = Return ys /\ Forall2 P xs ys.
Proof.
  induction xs as [|x xs IH]; intros H.
  - exists []. split; [reflexivity | constructor].
  - destruct (H x (or_introl eq_refl)) as (y & Hy & HP).
    destruct IH as (ys & Hys & Hall); [intros; apply H; right; assumption|].
    exists (y :: ys). split; [|constructor; assumption].
    simpl. rewrite Hy. simpl. rewrite Hys. reflexivity.
Qed.

End BuiltinFacts.

(** ** The profile parser *)

Section ParserFacts.
Import PyStr Re Processor.

Lemma groups_years_suffix : groups years_suffix_re = [].
Proof. reflexivity. Qed.

(** What [findall] reads from one match of the experience pattern. *)
Definition reads (m : mtch) (y : Q) : Prop :=
  exists u v, whole m = u +:+ v /\ group1 m = Some u /\ is_number u /\
              denotes years_suffix_re v /\ Py.float u = Return y /\ (0 <= y)%Q.

Lemma years_scan_reads lower_text m :
  In m (scan years_re 0 lower_text) -> exists y, reads m y.
Proof.
  intros Hin. apply scan_sound in Hin. destruct Hin as (pre & t & _ & Hm).
  apply (match_at_group _ _ _ _ groups_years_suffix) in Hm.
  destruct Hm as (u & v & Hw & Hg & Hu & Hv).
  apply number_re_shape in Hu.
  destruct (float_number _ Hu) as (y & Hy & Hpos).
  exists y, u, v. repeat split; assumption.
Qed.

(** Every captured number converts; the values are listed in the order of
    the matches. *)
Lemma years_convert lower_text :
  exists years,
    Py.map_m Py.float (findall years_re lower_text) = Return years /\
    Forall2 reads (scan years_re 0 lower_text) years.
Proof.
  unfold findall.
  assert (H : forall ms, (forall m, In m ms -> exists y, reads m y) ->
            exists years,
              Py.map_m Py.float
                (map (fun m => match group1 m with Some g => g | None => EmptyString end) ms)
                = Return years /\ Forall2 reads ms years).
  { induction ms as [|m ms IH]; intros Hall.
    - exists []. split; [reflexivity | constructor].
    - destruct (Hall m (or_introl eq_refl)) as (y & Hr).
      destruct IH as (ys & Hys & HF); [intros; apply Hall; right; assumption|].
      exists (y :: ys). split; [|constructor; assumption].
      destruct Hr as (u & v & _ & Hg & _ & _ & Hf & _).
      simpl. rewrite Hg, Hf. simpl. rewrite Hys. reflexivity. }
  apply H. intros m. apply years_scan_reads.
Qed.

(** The first non-blank line, trimmed. *)
Definition stripped_lines (text : string) : list string :=
  map strip (filter (fun ln => truthy (strip ln)) (splitlines text)).

Definition name_of (text : string) : string :=
  match stripped_lines text with
  | [] => "Unknown"
  | l :: _ => l
  end.

(** The parser returns, and each field is the result of its extractor. *)
Lemma parse_candidate_profile_returns text :
  exists years,
    extract_experience_years (lower text) = Return years /\
    parse_candidate_profile text =
      Return {| name := name_of text;
                email := extract_email text;
                total_experience_years := years;
                skills := Py.sorted_str (elements (extract_skills (lower text)));
                titles := Py.sorted_str (elements (extract_titles (lower text)));
                raw_text := take 5000 text |}.
Proof.
  assert (Hy : exists years, extract_experience_years (lower text) = Return years).
  { unfold extract_experience_years.
    destruct (years_convert (lower text)) as (ys & -> & _).
    cbn [mbind outcome_bind bind].
    destruct ys as [|y ys]; [eauto|].
    destruct (max_spec y ys) as (m & -> & _). eauto. }
  destruct Hy as (years & Hy). exists years. split; [exact Hy|].
  unfold parse_candidate_profile, name_of, stripped_lines.
  destruct (map strip _) as [|l ls];
    cbn [Py.getitem nth_error mbind outcome_bind bind];
    rewrite Hy; reflexivity.
Qed.

End ParserFacts.

(** ** [list.sort]: permutation, order and stability *)

Section SortFacts.
Context {A : Type} (before : A -> A -> bool).

Hypothesis before_total : forall x y, before x y = true \/ before y x = true.
Hypothesis before_trans :
  forall x y z, before x y = true -> before y z = true -> before x z = true.

Let ordered (x y : A) : Prop := before x y = true.

Lemma insert_perm x l : Permutation (Py.insert before x l) (x :: l).
Proof.
  induction l as [|y l IH]; simpl; [reflexivity|].
  destruct (before x y); [reflexivity|].
  rewrite IH. apply perm_swap.
Qed.

Lemma sort_perm l : Permutation (Py.sort before l) l.
Proof.
  induction l as [|x l IH]; simpl; [reflexivity|].
  rewrite insert_perm. constructor. exact IH.
Qed.

Lemma insert_sorted x l :
  StronglySorted ordered l -> StronglySorted ordered (Py.insert before x l).
Proof using before_total before_trans.
  induction 1 as [|y l Hs IH Hy]; simpl.
  - constructor; constructor.
  - destruct (before x y) eqn:E.
    + constructor; [constructor; assumption|].
      constructor; [exact E|].
      eapply Forall_impl; [exact Hy|]. intros z Hz. exact (before_trans _ _ _ E Hz).
    + constructor; [exact IH|].
      assert (Hyx : ordered y x) by (destruct (before_total x y); congruence).
      rewrite Forall_forall. intros z Hz. apply list_elem_of_In in Hz.
      apply (Permutation_in _ (insert_perm x l)) in Hz. destruct Hz as [<- | Hz].
      * exact Hyx.
      * rewrite Forall_forall in Hy. apply Hy, list_elem_of_In, Hz.
Qed.

Lemma sort_sorted l : StronglySorted ordered (Py.sort before l).
Proof using before_total before_trans.
  induction l as [|x l IH]; simpl; [constructor | apply insert_sorted; exact IH].
Qed.

(** Two elements tie when each may stand before the other. *)
Definition ties (x y : A) : bool := before x y && before y x.

Lemma insert_stable z x l :
  filter (fun y => ties z y) (Py.insert before x l) =
  filter (fun y => ties z y) (x :: l).
Proof using before_trans.
  induction l as [|y l IH]; [reflexivity|].
  cbn [Py.insert]. destruct (before x y) eqn:E; [reflexivity|].
  rewrite filter_cons, IH, !filter_cons.
  destruct (decide (ties z y)) as [Hy|Hy]; [|reflexivity].
  destruct (decide (ties z x)) as [Hx|Hx]; [|reflexivity].
  exfalso. unfold ties in Hx, Hy.
  apply Is_true_true, andb_true_iff in Hx. apply Is_true_true, andb_true_iff in Hy.
  destruct Hx as [_ Hxz]. destruct Hy as [Hzy _].
  rewrite (before_trans _ _ _ Hxz Hzy) in E. discriminate.
Qed.

(** Stability: the elements that tie with [z] keep their input order. *)
Lemma sort_stable z l :
  filter (fun y => ties z y) (Py.sort before l) = filter (fun y => ties z y) l.
Proof using before_trans.
  induction l as [|x l IH]; [reflexivity|].
  cbn [Py.sort]. rewrite insert_stable, !filter_cons, IH. reflexivity.
Qed.

End SortFacts.

(** *** Ascending order on strings *)

Section StringOrder.

Lemma leb_trans_str x y z :
  String.leb x y = true -> String.leb y z = true -> String.leb x z = true.
Proof.
  intros H1 H2. apply Is_true_true.
  apply (@transitivity _ String.le _ x y z); apply Is_true_true; assumption.
Qed.

Lemma compare_refl_str s : String.compare s s = Eq.
Proof.
  induction s as [|c s IH]; [reflexivity|]. simpl.
  unfold Ascii.compare. rewrite N.compare_refl. exact IH.
Qed.

Lemma ltb_leb_ne x y : String.ltb x y = true <-> String.leb x y = true /\ x <> y.
Proof.
  unfold String.ltb, String.leb.
  destruct (String.compare x y) eqn:E.
  - apply String.compare_eq_iff in E. split; [discriminate | intros [_ H]; contradiction].
  - split; [|reflexivity]. intros _. split; [reflexivity|].
    intros ->. rewrite compare_refl_str in E. discriminate.
  - split; [discriminate | intros [H _]; discriminate].
Qed.

Lemma strictly_sorted_nodup (l : list string) :
  NoDup l ->
  StronglySorted (fun a b => String.leb a b = true) l ->
  StronglySorted (fun a b => String.ltb a b = true) l.
Proof.
  intros Hnd Hs. induction Hs as [|a l Hs IH Ha]; [constructor|].
  apply NoDup_cons in Hnd. destruct Hnd as [Hnotin Hnd].
  constructor; [apply IH; exact Hnd|].
  rewrite Forall_forall in *. intros b Hb. apply ltb_leb_ne.
  split; [apply Ha; exact Hb|]. intros ->. exact (Hnotin Hb).
Qed.

(** [sorted] of duplicate-free strings: the same strings, strictly
    ascending. *)
Lemma sorted_str_spec (l : list string) :
  NoDup l ->
  Permutation (Py.sorted_str l) l /\
  NoDup (Py.sorted_str l) /\
  StronglySorted (fun a b => String.ltb a b = true) (Py.sorted_str l).
Proof.
  intros Hnd.
  assert (Hp : Permutation (Py.sorted_str l) l) by apply sort_perm.
  assert (Hnd' : NoDup (Py.sorted_str l)) by (rewrite Hp; exact Hnd).
  split; [exact Hp|]. split; [exact Hnd'|].
  apply strictly_sorted_nodup; [exact Hnd'|].
  apply sort_sorted; [apply String.leb_total | apply leb_trans_str].
Qed.

End StringOrder.

(** ** The matching engine *)

Section MatchFacts.
Import Processor.

(** The ratio |a ∩ b| / |a ∪ b| as a fraction. *)
Definition jaccard_ratio (a b : gset string) : Q :=
  Z.of_nat (size (a ∩ b)) # Pos.of_nat (size (a ∪ b)).

Lemma union_size_pos (a b : gset string) :
  ~ (a = ∅ /\ b = ∅) -> size (a ∪ b) <> 0.
Proof.
  intros Hne Hs. apply size_empty_iff in Hs. apply leibniz_equiv in Hs.
  apply empty_union_L in Hs. exact (Hne Hs).
Qed.

Lemma jaccard_similarity_value (a b : gset string) :
  jaccard_similarity a b =
    Return (if decide (a = ∅ /\ b = ∅) then 0%Q else jaccard_ratio a b).
Proof.
  unfold jaccard_similarity.
  destruct (decide (a = ∅ /\ b = ∅)) as [[-> ->] | Hne].
  - reflexivity.
  - assert (Hb : bool_decide (a = ∅) && bool_decide (b = ∅) = false).
    { apply andb_false_iff.
      destruct (decide (a = ∅)) as [Ha|Ha].
      - right. apply bool_decide_eq_false. intros Hb. apply Hne. auto.
      - left. apply bool_decide_eq_false. exact Ha. }
    rewrite Hb. pose proof (union_size_pos a b Hne) as Hu.
    unfold jaccard_ratio. destruct (size (a ∪ b)); [congruence | reflexivity].
Qed.

Lemma jaccard_ratio_nonneg a b : (0 <= jaccard_ratio a b)%Q.
Proof. unfold jaccard_ratio, Qle. cbn [Qnum Qden]. lia. Qed.

Lemma jaccard_ratio_le_1 a b : (jaccard_ratio a b <= 1)%Q.
Proof.
  unfold jaccard_ratio, Qle. cbn [Qnum Qden].
  assert (Hsub : size (a ∩ b) <= size (a ∪ b)).
  { apply subseteq_size. intros x. rewrite elem_of_intersection, elem_of_union. tauto. }
  destruct (size (a ∪ b)) as [|n] eqn:E.
  - assert (size (a ∩ b) = 0) by lia. lia.
  - rewrite Z.mul_1_r, Z.mul_1_l.
    change (Z.pos (Pos.of_nat (S n))) with (Z.of_nat (S n)) || idtac.
    rewrite <- (Nat2Pos.id (S n)) in Hsub by lia.
    rewrite <- positive_nat_Z. lia.
Qed.

(** A positive ratio is a shared skill. *)
Lemma jaccard_ratio_pos a b : (0 < jaccard_ratio a b)%Q <-> a ∩ b <> ∅.
Proof.
  unfold jaccard_ratio, Qlt. cbn [Qnum Qden]. rewrite Z.mul_0_l, Z.mul_1_r.
  split.
  - intros H Hempty. rewrite Hempty, size_empty in H. simpl in H. lia.
  - intros H. assert (size (a ∩ b) <> 0); [|lia].
    intros Hs. apply size_empty_iff in Hs. apply leibniz_equiv in Hs. exact (H Hs).
Qed.

(** What the loop keeps of one job: its identifier and score, when it has
    an identifier, requires a skill and shares one with the candidate. *)
Definition kept (candidate_skills : gset string) (j : job) : option (string * Q) :=
  let required := lower_set (str_items (required_skills j)) in
  match jobId j with
  | Some job_id =>
      if PyStr.truthy job_id && negb (bool_decide (required = ∅))
         && Py.Qltb 0 (jaccard_ratio candidate_skills required)
      then Some (job_id, jaccard_ratio candidate_skills required)
      else None
  | None => None
  end.

Definition scored (candidate_skills : gset string) (jobs : list job)
    : list (string * Q) :=
  flat_map (fun j => match kept candidate_skills j with
                     | Some e => [e]
                     | None => []
                     end) jobs.

Lemma score_job_kept cs results j :
  score_job cs results j =
    Return (results ++ match kept cs j with Some e => [e] | None => [] end).
Proof.
  unfold score_job, kept. destruct (jobId j) as [job_id|]; [|rewrite app_nil_r; reflexivity].
  destruct (PyStr.truthy job_id); cbn [negb orb andb]; [|rewrite app_nil_r; reflexivity].
  destruct (bool_decide (lower_set (str_items (required_skills j)) = ∅)) eqn:E;
    cbn [negb orb andb]; [rewrite app_nil_r; reflexivity|].
  rewrite jaccard_similarity_value.
  apply bool_decide_eq_false in E.
  destruct (decide (cs = ∅ /\ lower_set (str_items (required_skills j)) = ∅))
    as [[_ H]|_]; [contradiction|].
  cbn. destruct (Py.Qltb 0 _); [reflexivity | rewrite app_nil_r; reflexivity].
Qed.

Lemma for_each_score_job cs jobs : forall results,
  Py.for_each (score_job cs) jobs results = Return (results ++ scored cs jobs).
Proof.
  induction jobs as [|j jobs IH]; intros results; simpl.
  - rewrite app_nil_r. reflexivity.
  - rewrite score_job_kept. cbn. rewrite IH, <- app_assoc. reflexivity.
Qed.

Definition render (e : string * Q) : match_entry :=
  {| m_jobId := fst e; m_score := Py.round (snd e) 3 |}.

(** The matcher returns: the kept jobs, best first, cut to ten, scores
    rounded. *)
Lemma compute_matches_value candidate jobs :
  compute_matches candidate jobs =
    Return (map render
              (firstn 10 (sort_best_first (scored (lower_set (skills candidate)) jobs)))).
Proof.
  unfold compute_matches. rewrite for_each_score_job. cbn.
  f_equal. apply map_ext. intros [jid score]. reflexivity.
Qed.

(** *** The order of the ranking *)

Definition best_first (x y : string * Q) : bool := Qle_bool (snd y) (snd x).

Lemma best_first_total x y : best_first x y = true \/ best_first y x = true.
Proof.
  unfold best_first. rewrite !Qle_bool_iff.
  destruct (Qlt_le_dec (snd x) (snd y)); [right; apply Qlt_le_weak|left]; assumption.
Qed.

Lemma best_first_trans x y z :
  best_first x y = true -> best_first y z = true -> best_first x z = true.
Proof.
  unfold best_first. rewrite !Qle_bool_iff. intros H1 H2.
  exact (Qle_trans _ _ _ H2 H1).
Qed.

Lemma ties_best_first x y : ties best_first x y = true <-> (snd x == snd y)%Q.
Proof.
  unfold ties, best_first. rewrite andb_true_iff, !Qle_bool_iff. split.
  - intros [H1 H2]. apply Qle_antisym; assumption.
  - intros H. rewrite H. split; apply Qle_refl.
Qed.

End MatchFacts.

(** ** [round] *)

Section RoundFacts.

Lemma round_half_even_bounds x :
  let r := Py.round_half_even x in
  (Qfloor x <= r <= Qfloor x + 1)%Z.
Proof.
  unfold Py.round_half_even.
  destruct (Qcompare _ _); [destruct (Z.even _)| |]; lia.
Qed.
Lemma round_half_even_mono x y :
  (x <= y)%Q -> (Py.round_half_even x <= Py.round_half_even y)%Z.
Proof.
  intros Hxy. pose proof (Qfloor_resp_le _ _ Hxy) as Hf.
  pose proof (round_half_even_bounds x) as Hx.
  pose proof (round_half_even_bounds y) as Hy. cbv zeta in Hx, Hy.
  destruct (Z.eq_dec (Qfloor x) (Qfloor y)) as [E|E]; [|lia].
  unfold Py.round_half_even. rewrite <- E.
  destruct (Qcompare (x - inject_Z (Qfloor x)) (1 # 2)) eqn:Cx;
    destruct (Qcompare (y - inject_Z (Qfloor x)) (1 # 2)) eqn:Cy;
    try (destruct (Z.even (Qfloor x))); try lia.
  all: exfalso;
    first [apply Qeq_alt in Cx | apply Qlt_alt in Cx | apply Qgt_alt in Cx];
    first [apply Qeq_alt in Cy | apply Qlt_alt in Cy | apply Qgt_alt in Cy];
    lra.
Qed.

Lemma round_half_even_comp (x y : Q) :
  (x == y)%Q -> Py.round_half_even x = Py.round_half_even y.
Proof.
  intros H. unfold Py.round_half_even. rewrite (Qfloor_comp x y H).
  assert (C : Qcompare (x - inject_Z (Qfloor y)) (1 # 2)
              = Qcompare (y - inject_Z (Qfloor y)) (1 # 2)).
  { apply Qcompare_comp; [rewrite H; reflexivity | reflexivity]. }
  rewrite C. reflexivity.
Qed.

(** An integer is its own nearest integer. *)
Lemma round_half_even_Z (z : Z) : Py.round_half_even (inject_Z z) = z.
Proof.
  unfold Py.round_half_even. rewrite Qfloor_Z.
  replace (Qcompare (inject_Z z - inject_Z z) (1 # 2)) with Lt; [reflexivity|].
  symmetry. apply Qlt_alt. unfold Qminus. rewrite Qplus_opp_r. reflexivity.
Qed.

(** *** Powers of two *)

Lemma two_neq_0 : ~ (2 == 0)%Q.
Proof. discriminate. Qed.

Lemma pow2_pos (k : Z) : (0 < 2 ^ k)%Q.
Proof. apply Qpower_0_lt. reflexivity. Qed.

Lemma pow2_le (n m : Z) : (n <= m)%Z -> (2 ^ n <= 2 ^ m)%Q.
Proof. intros H. apply Qpower_le_compat_l; [exact H | discriminate]. Qed.

Lemma pow2_lt_inv (n m : Z) : (2 ^ n < 2 ^ m)%Q -> (n < m)%Z.
Proof. intros H. apply (Qpower_lt_compat_l_inv 2); [exact H | reflexivity]. Qed.

Lemma pow2_Z (n : Z) : (0 <= n)%Z -> (2 ^ n == inject_Z (2 ^ n))%Q.
Proof. intros H. rewrite Zpower_Qpower by exact H. reflexivity. Qed.

Lemma pow2_quot (k e : Z) :
  (e <= k)%Z -> (2 ^ k / 2 ^ e == inject_Z (2 ^ (k - e)))%Q.
Proof.
  intros H. rewrite <- pow2_Z by lia.
  rewrite Qpower_minus by exact two_neq_0. reflexivity.
Qed.

Lemma frac_lt (a b c d : Q) :
  (0 < b)%Q -> (0 < d)%Q -> (a * d < c * b)%Q -> (a / b < c / d)%Q.
Proof.
  intros Hb Hd H. apply Qlt_shift_div_l; [exact Hd|].
  assert (E : (a / b * d == a * d / b)%Q) by (field; intros E; rewrite E in Hb; discriminate).
  rewrite E.
  apply Qlt_shift_div_r; [exact Hb | exact H].
Qed.

(** *** The exponent of a positive rational *)

Lemma floor_log2_bounds (x : Q) :
  (0 < x)%Q ->
  (2 ^ Py.floor_log2 x <= x)%Q /\ (x < 2 ^ (Py.floor_log2 x + 1))%Q.
Proof.
  intros Hx. destruct x as [p q].
  assert (Hp : (0 < p)%Z) by (unfold Qlt in Hx; cbn in Hx; lia).
  unfold Py.floor_log2. cbn [Qnum Qden].
  destruct (Z.log2_spec p Hp) as [Ha1 Ha2].
  destruct (Z.log2_spec (Z.pos q) eq_refl) as [Hb1 Hb2].
  pose proof (Z.log2_nonneg p) as Ha0.
  pose proof (Z.log2_nonneg (Z.pos q)) as Hb0.
  set (a := Z.log2 p) in *. set (b := Z.log2 (Z.pos q)) in *.
  rewrite Zle_Qle, <- pow2_Z in Ha1, Hb1 by lia.
  rewrite Zlt_Qlt, <- pow2_Z in Ha2, Hb2 by lia.
  pose proof (pow2_pos a) as Pa. pose proof (pow2_pos b) as Pb.
  assert (E : (p # q == inject_Z p / inject_Z (Z.pos q))%Q) by apply Qmake_Qdiv.
  assert (Hq : (0 < inject_Z (Z.pos q))%Q) by reflexivity.
  assert (U : (p # q < 2 ^ (a - b + 1))%Q).
  { replace (a - b + 1)%Z with (Z.succ a - b)%Z by lia.
    rewrite Qpower_minus by exact two_neq_0. rewrite E.
    apply frac_lt; [exact Hq | exact Pb |].
    rewrite (Qmult_comm (inject_Z p)), (Qmult_comm (2 ^ Z.succ a)).
    apply Qmult_le_lt_compat_pos; split; try assumption. }
  destruct (Qle_bool (2 ^ (a - b)) (p # q)) eqn:T.
  - split; [apply Qle_bool_iff; exact T | exact U].
  - split.
    + replace (a - b - 1)%Z with (a - Z.succ b)%Z by lia.
      rewrite Qpower_minus by exact two_neq_0. rewrite E.
      apply Qlt_le_weak. apply frac_lt; [apply pow2_pos | exact Hq |].
      apply Qmult_le_lt_compat_pos; split; assumption.
    + replace (a - b - 1 + 1)%Z with (a - b)%Z by lia.
      apply Qnot_le_lt. intros H. apply Qle_bool_iff in H. congruence.
Qed.

Lemma floor_log2_mono (x y : Q) :
  (0 < x)%Q -> (x <= y)%Q -> (Py.floor_log2 x <= Py.floor_log2 y)%Z.
Proof.
  intros Hx Hxy.
  destruct (floor_log2_bounds x Hx) as [Lx _].
  destruct (floor_log2_bounds y (Qlt_le_trans _ _ _ Hx Hxy)) as [_ Uy].
  assert (H : (2 ^ Py.floor_log2 x < 2 ^ (Py.floor_log2 y + 1))%Q).
  { eapply Qle_lt_trans; [exact Lx|]. eapply Qle_lt_trans; [exact Hxy | exact Uy]. }
  apply pow2_lt_inv in H. lia.
Qed.

(** *** The nearest binary64 number *)

Definition scaled (x : Q) (e : Z) : Q :=
  (inject_Z (Py.round_half_even (x / 2 ^ e)) * 2 ^ e)%Q.

Lemma div_pow2_le (x y : Q) (e : Z) : (x <= y)%Q -> (x / 2 ^ e <= y / 2 ^ e)%Q.
Proof.
  intros H. apply Qmult_le_compat_r; [exact H|].
  apply Qlt_le_weak, Qinv_lt_0_compat, pow2_pos.
Qed.

Lemma scaled_mono (x y : Q) (e : Z) : (x <= y)%Q -> (scaled x e <= scaled y e)%Q.
Proof.
  intros H. unfold scaled.
  apply Qmult_le_compat_r; [|apply Qlt_le_weak, pow2_pos].
  rewrite <- Zle_Qle. apply round_half_even_mono, div_pow2_le, H.
Qed.

Lemma scaled_pow2 (k e : Z) : (e <= k)%Z -> (scaled (2 ^ k) e == 2 ^ k)%Q.
Proof.
  intros H. unfold scaled.
  assert (R : Py.round_half_even (2 ^ k / 2 ^ e) = (2 ^ (k - e))%Z).
  { rewrite <- (round_half_even_Z (2 ^ (k - e))).
    apply round_half_even_comp, pow2_quot, H. }
  rewrite R, <- pow2_Z by lia.
  rewrite <- Qpower_plus by exact two_neq_0.
  replace (k - e + e)%Z with k by lia. reflexivity.
Qed.

Lemma nearest_double_mono (x y : Q) :
  (0 < x)%Q -> (x <= y)%Q -> (Py.nearest_double x <= Py.nearest_double y)%Q.
Proof.
  intros Hx Hxy.
  assert (Hy : (0 < y)%Q) by exact (Qlt_le_trans _ _ _ Hx Hxy).
  pose proof (floor_log2_mono x y Hx Hxy) as Hf.
  destruct (floor_log2_bounds x Hx) as [_ Ux].
  destruct (floor_log2_bounds y Hy) as [Ly _].
  unfold Py.nearest_double. cbv zeta.
  set (fx := Py.floor_log2 x) in *. set (fy := Py.floor_log2 y) in *.
  fold (scaled x (Z.max (fx - 52) (-1074))).
  fold (scaled y (Z.max (fy - 52) (-1074))).
  destruct (Z.eq_dec (Z.max (fx - 52) (-1074)) (Z.max (fy - 52) (-1074))) as [E|E].
  - rewrite E. apply scaled_mono, Hxy.
  - assert (Hlt : (fx + 1 <= fy)%Z) by lia.
    apply Qle_trans with (2 ^ fy)%Q.
    + rewrite <- (scaled_pow2 fy (Z.max (fx - 52) (-1074))) by lia.
      apply scaled_mono. apply Qlt_le_weak.
      eapply Qlt_le_trans; [exact Ux | apply pow2_le, Hlt].
    + rewrite <- (scaled_pow2 fy (Z.max (fy - 52) (-1074))) at 1 by lia.
      apply scaled_mono, Ly.
Qed.

Lemma nearest_double_nonneg (x : Q) : (0 < x)%Q -> (0 <= Py.nearest_double x)%Q.
Proof.
  intros Hx. unfold Py.nearest_double. cbv zeta.
  apply Qmult_le_0_compat; [|apply Qlt_le_weak, pow2_pos].
  change 0%Q with (inject_Z 0). rewrite <- Zle_Qle.
  rewrite <- (round_half_even_Z 0). apply round_half_even_mono.
  apply Qlt_le_weak. apply Qlt_shift_div_l; [apply pow2_pos|].
  change (inject_Z 0) with 0%Q. lra.
Qed.

(** The nearest integer is at most one half away. *)
Lemma round_half_even_near (y : Q) :
  (Qabs (inject_Z (Py.round_half_even y) - y) <= 1 # 2)%Q.
Proof.
  pose proof (Qfloor_le y) as Hlo. pose proof (Qlt_floor y) as Hhi.
  rewrite inject_Z_plus in Hhi. change (inject_Z 1) with 1%Q in Hhi.
  apply Qabs_Qle_condition. unfold Py.round_half_even.
  destruct (Qcompare (y - inject_Z (Qfloor y)) (1 # 2)) eqn:C;
    [apply Qeq_alt in C | apply Qlt_alt in C | apply Qgt_alt in C];
    [destruct (Z.even (Qfloor y))| |];
    rewrite ?inject_Z_plus; change (inject_Z 1) with 1%Q;
    set (f := inject_Z (Qfloor y)) in *; clearbody f; split; lra.
Qed.

(** The binary64 number taken for a positive rational is at most half a
    unit in the last place away from it. *)
Lemma nearest_double_near (x : Q) :
  (0 < x)%Q ->
  (Qabs (Py.nearest_double x - x)
   <= (1 # 2) * 2 ^ Z.max (Py.floor_log2 x - 52) (-1074))%Q.
Proof.
  intros Hx. unfold Py.nearest_double. cbv zeta.
  set (e := Z.max (Py.floor_log2 x - 52) (-1074)).
  pose proof (pow2_pos e) as He.
  assert (E : (inject_Z (Py.round_half_even (x / 2 ^ e)) * 2 ^ e - x ==
               (inject_Z (Py.round_half_even (x / 2 ^ e)) - x / 2 ^ e) * 2 ^ e)%Q).
  { field. intros H. rewrite H in He. discriminate. }
  rewrite E, Qabs_Qmult, (Qabs_pos (2 ^ e)) by (apply Qlt_le_weak, He).
  apply Qmult_le_compat_r; [apply round_half_even_near | apply Qlt_le_weak, He].
Qed.

Lemma Qnum_pos (x : Q) p : Qnum x = Z.pos p -> (0 < x)%Q.
Proof. intros H. unfold Qlt. cbn. lia. Qed.

Lemma Qnum_neg (x : Q) p : Qnum x = Z.neg p -> (0 < - x)%Q.
Proof. intros H. unfold Qlt. cbn. lia. Qed.

Lemma Qnum_zero (x : Q) : Qnum x = 0%Z -> (x == 0)%Q.
Proof. intros H. unfold Qeq. cbn. lia. Qed.

(** Taking the nearest binary64 number keeps the order. *)
Lemma to_double_mono (x y : Q) : (x <= y)%Q -> (Py.to_double x <= Py.to_double y)%Q.
Proof.
  intros Hxy. unfold Py.to_double.
  destruct (Qnum x) as [|p|p] eqn:Ex; destruct (Qnum y) as [|q|q] eqn:Ey.
  - apply Qle_refl.
  - apply nearest_double_nonneg, (Qnum_pos _ _ Ey).
  - apply Qnum_zero in Ex. apply Qnum_neg in Ey. lra.
  - apply Qnum_pos in Ex. apply Qnum_zero in Ey. lra.
  - apply nearest_double_mono; [exact (Qnum_pos _ _ Ex) | exact Hxy].
  - apply Qnum_pos in Ex. apply Qnum_neg in Ey. lra.
  - pose proof (nearest_double_nonneg _ (Qnum_neg _ _ Ex)). lra.
  - pose proof (nearest_double_nonneg _ (Qnum_neg _ _ Ex)).
    pose proof (nearest_double_nonneg _ (Qnum_pos _ _ Ey)). lra.
  - apply Qopp_le_compat.
    apply nearest_double_mono; [exact (Qnum_neg _ _ Ey) | lra].
Qed.

Lemma round_mono x y n : (x <= y)%Q -> (Py.round x n <= Py.round y n)%Q.
Proof.
  intros Hxy. unfold Py.round, Qle. cbn [Qnum Qden].
  apply Z.mul_le_mono_nonneg_r; [lia|].
  apply round_half_even_mono.
  apply Qmult_le_compat_r; [apply to_double_mono, Hxy|].
  unfold Qle. cbn [Qnum Qden inject_Z]. lia.
Qed.

Lemma round_zero n : Py.round 0 n = (0 # Py.pow10 n)%Q.
Proof.
  unfold Py.round. f_equal.
Qed.

(** Ratios that lie halfway between two decimals as rationals, but not as
    binary64 numbers, and ratios that are binary64 numbers themselves. *)
Lemma round_examples :
  Py.round (1 # 80) 3 = (13 # 1000)%Q /\
  Py.round (3 # 80) 3 = (37 # 1000)%Q /\
  Py.round (1 # 2000) 3 = (1 # 1000)%Q /\
  Py.round (1 # 400) 3 = (3 # 1000)%Q /\
  Py.round (1 # 16) 3 = (62 # 1000)%Q /\
  Py.round (3 # 16) 3 = (188 # 1000)%Q /\
  Py.round (2 # 3) 3 = (667 # 1000)%Q.
Proof. repeat split; vm_compute; reflexivity. Qed.

Lemma round_nonneg x n : (0 <= x)%Q -> (0 <= Py.round x n)%Q.
Proof.
  intros Hx. apply Qle_trans with (Py.round 0 n); [|apply round_mono; exact Hx].
  rewrite round_zero. unfold Qle. cbn. lia.
Qed.

End RoundFacts.

(** ** Skills and titles as sets *)

Section ExtractFacts.
Import PyStr Processor.

Lemma fold_add_elem {A : Type} (keep : A -> bool) (f : A -> string)
    (l : list A) : forall (init : gset string) (x : string),
  x ∈ fold_left (fun acc a => if keep a then acc ∪ {[ f a ]} else acc) l init <->
  x ∈ init \/ exists a, In a l /\ keep a = true /\ x = f a.
Proof.
  induction l as [|a l IH]; intros init x; simpl.
  - split; [auto | intros [H | (a & [] & _)]; exact H].
  - rewrite IH. destruct (keep a) eqn:Ea.
    + rewrite elem_of_union, elem_of_singleton. split.
      * intros [[H | ->] | (a' & Hin & Hk & ->)]; eauto 7.
      * intros [H | (a' & [<- | Hin] & Hk & ->)]; eauto 7.
    + split.
      * intros [H | (a' & Hin & Hk & ->)]; eauto 7.
      * intros [H | (a' & [<- | Hin] & Hk & ->)]; [auto | congruence | eauto 7].
Qed.

(** A skill is found exactly when it is a keyword that the text contains. *)
Lemma elem_of_extract_skills lower_text k :
  k ∈ extract_skills lower_text <->
  In k SKILL_KEYWORDS /\ contains k lower_text = true.
Proof.
  unfold extract_skills.
  rewrite (fold_add_elem (fun s => contains s lower_text) (fun s => s)).
  split.
  - intros [H | (a & Hin & Hk & ->)]; [|auto].
    exfalso. exact (not_elem_of_empty _ H).
  - intros [Hin Hk]. right. exists k. auto.
Qed.

Definition has_title_keyword (line : string) : bool :=
  existsb (fun word => contains word line) title_keywords.

(** A title is the trimmed form of a line that holds a title keyword. *)
Lemma elem_of_extract_titles lower_text t :
  t ∈ extract_titles lower_text <->
  exists line, In line (splitlines lower_text) /\
               has_title_keyword line = true /\ t = strip line.
Proof.
  unfold extract_titles.
  rewrite (fold_add_elem has_title_keyword strip).
  split.
  - intros [H | H]; [|exact H]. exfalso. exact (not_elem_of_empty _ H).
  - intros H. right. exact H.
Qed.

Lemma elements_nil_iff (s : gset string) : elements s = [] <-> s = ∅.
Proof.
  split.
  - intros H. apply leibniz_equiv. apply elements_empty_inv. rewrite H. reflexivity.
  - intros ->. apply elements_empty.
Qed.

(** The rendered list of a set: its members, once each, ascending. *)
Lemma sorted_elements_spec (s : gset string) :
  NoDup (Py.sorted_str (elements s)) /\
  StronglySorted (fun a b => String.ltb a b = true) (Py.sorted_str (elements s)) /\
  (forall x, In x (Py.sorted_str (elements s)) <-> x ∈ s).
Proof.
  destruct (sorted_str_spec (elements s) (NoDup_elements s)) as (Hp & Hnd & Hs).
  split; [exact Hnd|]. split; [exact Hs|].
  intros x. rewrite <- elem_of_elements, <- list_elem_of_In.
  rewrite Hp. reflexivity.
Qed.

End ExtractFacts.

(** ** The profile parser: name, defaults, skills *)

Section ParserClaims.
Import PyStr Re Processor.

Lemma truthy_strip ln : truthy (strip ln) = negb (blank ln).
Proof.
  unfold truthy. destruct (blank ln) eqn:E.
  - apply strip_empty in E. rewrite E. reflexivity.
  - destruct (strip ln) eqn:Es; [|reflexivity].
    apply strip_empty in Es. congruence.
Qed.

Lemma stripped_lines_blank text :
  Forall (fun ln => blank ln = true) (splitlines text) -> stripped_lines text = [].
Proof.
  unfold stripped_lines. induction 1 as [|ln lns Hb _ IH]; [reflexivity|].
  rewrite filter_cons. rewrite truthy_strip, Hb. cbn. exact IH.
Qed.

Lemma stripped_lines_first text pre ln post :
  splitlines text = pre ++ ln :: post ->
  Forall (fun l => blank l = true) pre -> blank ln = false ->
  exists rest, stripped_lines text = strip ln :: rest.
Proof.
  unfold stripped_lines. intros -> Hpre Hln.
  induction Hpre as [|l pre Hb _ IH]; simpl.
  - rewrite filter_cons, truthy_strip, Hln. cbn. eauto.
  - rewrite filter_cons, truthy_strip, Hb. cbn. exact IH.
Qed.

(** C2, as the code has it: the name is ["Unknown"] when the text has no
    non-blank line, which is the same as the text being empty after
    trimming; otherwise it is the first non-blank line, trimmed.  (That
    line may itself read ["Unknown"], so the name ["Unknown"] does not tell
    the two cases apart.) *)
Theorem parse_profile_name (text : string) :
  exists p, parse_candidate_profile text = Return p /\
    (strip text = EmptyString <->
       Forall (fun ln => blank ln = true) (splitlines text)) /\
    (Forall (fun ln => blank ln = true) (splitlines text) ->
       name p = "Unknown") /\
    (forall pre ln post,
       splitlines text = pre ++ ln :: post ->
       Forall (fun l => blank l = true) pre -> blank ln = false ->
       name p = strip ln).
Proof.
  destruct (parse_candidate_profile_returns text) as (years & _ & Hp).
  eexists. split; [exact Hp|]. cbn [name].
  split; [rewrite strip_empty; apply blank_splitlines|].
  split.
  - intros Hb. unfold name_of. rewrite (stripped_lines_blank _ Hb). reflexivity.
  - intros pre ln post Hsplit Hpre Hln.
    destruct (stripped_lines_first _ _ _ _ Hsplit Hpre Hln) as (rest & Hr).
    unfold name_of. rewrite Hr. reflexivity.
Qed.

(** C2 as stated fails from right to left: the one-line text [Unknown] has
    a non-blank line and yet the name is ["Unknown"]. *)
Lemma name_unknown_with_nonblank_line :
  exists p, parse_candidate_profile "Unknown" = Return p /\
    name p = "Unknown" /\
    splitlines "Unknown" = ["Unknown"] /\
    ~ Forall (fun ln => blank ln = true) (splitlines "Unknown").
Proof.
  eexists. split; [vm_compute; reflexivity|].
  split; [reflexivity|]. split; [reflexivity|].
  intros H. inversion H as [|? ? Hb _]. vm_compute in Hb. discriminate.
Qed.

(** C4: the parser returns a profile for every text; a field whose data
    the text lacks takes its default: no address, the email is empty; no
    mention of years, the experience is 0; no keyword, no skills; no line
    with a title word, no titles; and the empty text gives all of them. *)
Theorem parse_profile_total (text : string) :
  exists p, parse_candidate_profile text = Return p /\
    ((forall i w, occurs_at w i text -> ~ denotes email_re w) ->
       email p = EmptyString) /\
    ((forall i w, occurs_at w i (lower text) -> ~ denotes years_re w) ->
       total_experience_years p = 0%Q) /\
    ((forall k, In k SKILL_KEYWORDS -> contains k (lower text) = false) ->
       skills p = []) /\
    ((forall line, In line (splitlines (lower text)) ->
        has_title_keyword line = false) ->
       titles p = []) /\
    (text = EmptyString ->
       p = {| name := "Unknown"; email := EmptyString;
              total_experience_years := 0%Q; skills := []; titles := [];
              raw_text := EmptyString |}).
Proof.
  destruct (parse_candidate_profile_returns text) as (years & Hy & Hp).
  eexists. split; [exact Hp|]. cbn [email total_experience_years skills titles].
  split; [|split; [|split; [|split]]].
  - intros Hno. unfold extract_email.
    rewrite (proj2 (search_none email_re text) Hno). reflexivity.
  - intros Hno. apply scan_nil in Hno.
    unfold extract_experience_years, findall in Hy. rewrite Hno in Hy.
    cbn in Hy. congruence.
  - intros Hno.
    assert (He : extract_skills (lower text) = ∅).
    { apply leibniz_equiv. apply elem_of_equiv_empty. intros k Hk.
      apply elem_of_extract_skills in Hk. destruct Hk as [Hin Hc].
      rewrite (Hno _ Hin) in Hc. discriminate. }
    rewrite He, elements_empty. reflexivity.
  - intros Hno.
    assert (He : extract_titles (lower text) = ∅).
    { apply leibniz_equiv. apply elem_of_equiv_empty. intros t Ht.
      apply elem_of_extract_titles in Ht. destruct Ht as (line & Hin & Hk & _).
      rewrite (Hno _ Hin) in Hk. discriminate. }
    rewrite He, elements_empty. reflexivity.
  - intros ->. vm_compute in Hp. vm_compute in Hy.
    assert (years = 0%Q) by congruence. subst years. reflexivity.
Qed.

(** C8: the skills of the profile are the keywords that occur in the
    lowercased text, each once, in ascending order; two texts that contain
    the same keywords, however often and in whatever case, give the same
    list. *)
Theorem parse_profile_skills (text : string) :
  exists p, parse_candidate_profile text = Return p /\
    NoDup (skills p) /\
    StronglySorted (fun a b => String.ltb a b = true) (skills p) /\
    (forall k, In k (skills p) <->
               In k SKILL_KEYWORDS /\ contains k (lower text) = true) /\
    (forall text' p',
       (forall k, In k SKILL_KEYWORDS ->
                  contains k (lower text') = contains k (lower text)) ->
       parse_candidate_profile text' = Return p' ->
       skills p' = skills p).
Proof.
  destruct (parse_candidate_profile_returns text) as (years & _ & Hp).
  eexists. split; [exact Hp|]. cbn [skills].
  destruct (sorted_elements_spec (extract_skills (lower text))) as (Hnd & Hs & Hin).
  split; [exact Hnd|]. split; [exact Hs|]. split.
  - intros k. rewrite Hin. apply elem_of_extract_skills.
  - intros text' p' Hsame Hp'.
    destruct (parse_candidate_profile_returns text') as (years' & _ & Hq).
    rewrite Hq in Hp'. apply Return_inj in Hp'. subst p'. cbn [skills].
    assert (He : extract_skills (lower text') = extract_skills (lower text)).
    { apply leibniz_equiv. intros k.
      rewrite (elem_of_extract_skills (lower text') k),
              (elem_of_extract_skills (lower text) k).
      split; intros [Hk Hc]; (split; [exact Hk|]);
        [rewrite <- (Hsame _ Hk) | rewrite (Hsame _ Hk)]; exact Hc. }
    rewrite He. reflexivity.
Qed.

(** The example of C8: three spellings of one keyword, one skill. *)
Example skills_python_once :
  exists p, parse_candidate_profile "Python, python and python" = Return p /\
            skills p = ["python"].
Proof. eexists. split; [vm_compute; reflexivity | reflexivity]. Qed.

End ParserClaims.

(** ** The matching engine: similarity, ranking, filtering *)

Section MatchClaims.
Import PyStr Processor.

(** C5: the similarity of two sets is |a ∩ b| / |a ∪ b|; it is 0 when both
    are empty; the division is reached only with a non-zero divisor, so the
    function never raises. *)
Theorem jaccard_similarity_spec (a b : gset string) :
  (a = ∅ /\ b = ∅ -> jaccard_similarity a b = Return 0%Q) /\
  (~ (a = ∅ /\ b = ∅) ->
     size (a ∪ b) <> 0 /\
     Py.truediv (size (a ∩ b)) (size (a ∪ b)) = jaccard_similarity a b /\
     exists q, jaccard_similarity a b = Return q /\
       (q == inject_Z (Z.of_nat (size (a ∩ b))) /
             inject_Z (Z.of_nat (size (a ∪ b))))%Q) /\
  (forall e, jaccard_similarity a b <> Raise e).
Proof.
  pose proof (jaccard_similarity_value a b) as Hv.
  split; [|split].
  - intros Hboth. rewrite Hv. destruct (decide _); [reflexivity | contradiction].
  - intros Hne. pose proof (union_size_pos a b Hne) as Hu.
    split; [exact Hu|]. rewrite Hv.
    destruct (decide _) as [Hboth|_]; [contradiction|].
    split.
    + unfold jaccard_ratio. destruct (size (a ∪ b)); [congruence | reflexivity].
    + eexists. split; [reflexivity|].
      unfold jaccard_ratio. rewrite Qmake_Qdiv.
      destruct (size (a ∪ b)) as [|n]; [congruence|].
      rewrite <- (positive_nat_Z (Pos.of_nat (S n))), Nat2Pos.id by lia.
      reflexivity.
  - intros e. rewrite Hv. discriminate.
Qed.

Definition same_score (x y : string * Q) : bool := Qeq_bool (snd x) (snd y).

Lemma sort_best_first_spec (results : list (string * Q)) :
  Permutation (sort_best_first results) results /\
  StronglySorted (fun x y => (snd y <= snd x)%Q) (sort_best_first results) /\
  (forall z, filter (fun y => same_score z y) (sort_best_first results) =
             filter (fun y => same_score z y) results).
Proof.
  unfold sort_best_first. fold best_first.
  split; [apply sort_perm|]. split.
  - pose proof (sort_sorted best_first best_first_total best_first_trans results) as Hs.
    induction Hs as [|x l Hs IH Hx]; constructor; [exact IH|].
    eapply Forall_impl; [exact Hx|]. intros y Hy. apply Qle_bool_iff. exact Hy.
  - intros z.
    assert (Heq : forall l : list (string * Q),
              filter (fun y => same_score z y) l =
              filter (fun y => ties best_first z y) l).
    { intros l. apply list_filter_iff. intros y. unfold same_score.
      rewrite !Is_true_true, ties_best_first. apply Qeq_bool_iff. }
    rewrite !Heq. apply sort_stable. exact best_first_trans.
Qed.

Lemma firstn_sorted {A : Type} (R : A -> A -> Prop) (l : list A) n :
  StronglySorted R l -> StronglySorted R (firstn n l).
Proof.
  intros Hs. revert n. induction Hs as [|x l Hs IH Hx]; intros [|n]; simpl;
    try constructor; [apply IH|].
  rewrite Forall_forall in *. intros y Hy. apply Hx.
  exact (subseteq_take _ _ _ Hy).
Qed.

Definition required_set (j : job) : gset string :=
  lower_set (str_items (required_skills j)).

Lemma kept_spec cs j job_id s :
  kept cs j = Some (job_id, s) <->
  jobId j = Some job_id /\ job_id <> EmptyString /\ required_set j <> ∅ /\
  s = jaccard_ratio cs (required_set j) /\ (0 < s)%Q.
Proof.
  unfold kept, required_set. destruct (jobId j) as [i|].
  - destruct (truthy i) eqn:Ht; cbn [andb].
    + destruct (bool_decide (lower_set (str_items (required_skills j)) = ∅)) eqn:Hd;
        cbn [negb andb].
      * apply bool_decide_eq_true in Hd. split; [discriminate|].
        intros (_ & _ & Hne & _). contradiction.
      * apply bool_decide_eq_false in Hd.
        destruct (Py.Qltb 0 _) eqn:Hq.
        -- apply Qltb_true in Hq. split.
           ++ intros H. injection H as <- <-. repeat split; auto.
              intros ->. discriminate.
           ++ intros (H & _ & _ & -> & _). injection H as ->. reflexivity.
        -- apply Qltb_false in Hq. split; [discriminate|].
           intros (_ & _ & _ & -> & Hpos). exfalso. exact (Qlt_not_le _ _ Hpos Hq).
    + split; [discriminate|]. intros (H & Hne & _). injection H as ->.
      destruct job_id; [congruence | discriminate].
  - split; [discriminate | intros (H & _); discriminate].
Qed.

Lemma in_scored cs jobs e :
  In e (scored cs jobs) <-> exists j, In j jobs /\ kept cs j = Some e.
Proof.
  unfold scored. rewrite in_flat_map. split.
  - intros (j & Hj & He). exists j. split; [exact Hj|].
    destruct (kept cs j); [destruct He as [-> | []]; reflexivity | destruct He].
  - intros (j & Hj & He). exists j. split; [exact Hj|]. rewrite He. left. reflexivity.
Qed.

Lemma scored_app cs l1 l2 : scored cs (l1 ++ l2) = scored cs l1 ++ scored cs l2.
Proof. unfold scored. apply flat_map_app. Qed.

Lemma render_sorted (l : list (string * Q)) :
  StronglySorted (fun x y => (snd y <= snd x)%Q) l ->
  StronglySorted (fun e1 e2 => (m_score e2 <= m_score e1)%Q) (map render l).
Proof.
  induction 1 as [|x l Hs IH Hx]; simpl; constructor; [exact IH|].
  rewrite Forall_forall. intros e He.
  apply list_elem_of_In, in_map_iff in He. destruct He as (y & <- & Hy).
  apply round_mono. apply (proj1 (Forall_forall _ _) Hx).
  apply list_elem_of_In. exact Hy.
Qed.

(** C1, as the code has it: the kept jobs are ranked by their computed
    score, best first, jobs whose computed scores are equal staying in the
    order of the job list; the first ten are returned, each with its score
    rounded to three decimals.  The rounded scores never increase along the
    output.  (Two scores that differ only beyond the third decimal are
    reported equal and need not stand in job-list order.) *)
Theorem compute_matches_ranking (candidate : profile) (jobs : list job) :
  exists out ranked,
    compute_matches candidate jobs = Return out /\
    Permutation ranked (scored (lower_set (skills candidate)) jobs) /\
    StronglySorted (fun x y => (snd y <= snd x)%Q) ranked /\
    (forall z, filter (fun y => same_score z y) ranked =
               filter (fun y => same_score z y)
                      (scored (lower_set (skills candidate)) jobs)) /\
    out = map render (firstn 10 ranked) /\
    length out <= 10 /\
    StronglySorted (fun e1 e2 => (m_score e2 <= m_score e1)%Q) out /\
    (forall e, In e out -> exists k : Z, m_score e = (k # 1000)%Q).
Proof.
  exists (map render (firstn 10 (sort_best_first (scored (lower_set (skills candidate)) jobs)))),
         (sort_best_first (scored (lower_set (skills candidate)) jobs)).
  destruct (sort_best_first_spec (scored (lower_set (skills candidate)) jobs))
    as (Hperm & Hsorted & Hstable).
  split; [apply compute_matches_value|].
  split; [exact Hperm|]. split; [exact Hsorted|]. split; [exact Hstable|].
  split; [reflexivity|]. split.
  - rewrite length_map. apply firstn_le_length.
  - split.
    + apply render_sorted, firstn_sorted. exact Hsorted.
    + intros e He. apply in_map_iff in He. destruct He as (x & <- & _).
      eexists. reflexivity.
Qed.

(** C3, as the code has it: every entry of the output comes from a job
    that has a non-empty identifier and a non-empty set of required skills
    and whose similarity to the candidate is strictly positive; the score
    shown is that similarity rounded to three decimals, which is not
    negative but can be 0.0.  A job without identifier, without required
    skills or with similarity 0 leaves no trace: removing it from the job
    list does not change the output. *)
Theorem compute_matches_entries (candidate : profile) (jobs : list job) :
  exists out,
    compute_matches candidate jobs = Return out /\
    (forall e, In e out ->
       exists j s,
         In j jobs /\ jobId j = Some (m_jobId e) /\ m_jobId e <> EmptyString /\
         required_set j <> ∅ /\
         jaccard_similarity (lower_set (skills candidate)) (required_set j) = Return s /\
         (0 < s)%Q /\ m_score e = Py.round s 3 /\ (0 <= m_score e)%Q) /\
    (forall pre j post,
       jobs = pre ++ j :: post ->
       (jobId j = None \/ jobId j = Some EmptyString \/ required_set j = ∅ \/
        exists s, jaccard_similarity (lower_set (skills candidate)) (required_set j)
                    = Return s /\ (s == 0)%Q) ->
       compute_matches candidate (pre ++ post) = Return out).
Proof.
  eexists. split; [apply compute_matches_value|]. split.
  - intros e He. apply in_map_iff in He. destruct He as ([i s] & <- & Hin).
    apply list_elem_of_In, subseteq_take, list_elem_of_In in Hin.
    apply (Permutation_in _ (proj1 (sort_best_first_spec _))) in Hin.
    apply in_scored in Hin. destruct Hin as (j & Hj & Hk).
    apply kept_spec in Hk. destruct Hk as (Hid & Hne & Hreq & -> & Hpos).
    exists j, (jaccard_ratio (lower_set (skills candidate)) (required_set j)).
    cbn [render m_jobId m_score fst snd].
    repeat split; auto.
    + rewrite jaccard_similarity_value.
      destruct (decide _) as [[_ H]|_]; [contradiction | reflexivity].
    + apply round_nonneg, Qlt_le_weak. exact Hpos.
  - intros pre j post -> Hskip. rewrite compute_matches_value.
    rewrite !scored_app. cbn [app].
    assert (Hnone : kept (lower_set (skills candidate)) j = None).
    { destruct (kept (lower_set (skills candidate)) j) as [[i s]|] eqn:Hk; [|reflexivity].
      exfalso. apply kept_spec in Hk. destruct Hk as (Hid & Hne & Hreq & Hs & Hpos).
      destruct Hskip as [H | [H | [H | (s' & H & Hz)]]]; try congruence.
      rewrite jaccard_similarity_value in H.
      destruct (decide _) as [[_ He]|_]; [contradiction|].
      apply Return_inj in H. subst s s'. rewrite Hz in Hpos.
      exact (Qlt_irrefl _ Hpos). }
    change (scored (lower_set (skills candidate)) (j :: post))
      with ((match kept (lower_set (skills candidate)) j with
             | Some e => [e] | None => [] end)
            ++ scored (lower_set (skills candidate)) post).
    rewrite Hnone. reflexivity.
Qed.


(** Inputs for the two examples below: a candidate with the given skills,
    and a job that requires the [n] skills [skill0], [skill1], ... *)
Definition candidate_with (l : list string) : profile :=
  {| name := "Unknown"; email := EmptyString; total_experience_years := 0%Q;
     skills := l; titles := []; raw_text := EmptyString |}.

Definition job_requiring (job_id : string) (n : nat) : job :=
  {| jobId := Some job_id;
     required_skills := map (fun i : nat => JStr ("skill" +:+ pretty i)) (seq 0 n) |}.

(** C1 as stated fails on the output: job A (44 required skills) precedes
    job B (43 required skills) in the job list, the candidate shares one
    skill with each, the scores 1/44 and 1/43 both show as 0.023, and B is
    listed before A. *)
Lemma equal_shown_scores_out_of_job_order :
  compute_matches (candidate_with ["skill0"])
                  [job_requiring "A" 44; job_requiring "B" 43]
  = Return [ {| m_jobId := "B"; m_score := (23 # 1000)%Q |};
             {| m_jobId := "A"; m_score := (23 # 1000)%Q |} ].
Proof. vm_compute. reflexivity. Qed.

(** The decimal numerals are lowercase already. *)
Lemma lower_pretty_N_go (x : N) : forall s,
  lower s = s -> lower (pretty_N_go x s) = pretty_N_go x s.
Proof.
  induction (N.lt_wf_0 x) as [x _ IH]. intros s Hs.
  destruct (N.eq_dec x 0%N) as [-> | Hx]; [rewrite pretty_N_go_0; exact Hs|].
  rewrite pretty_N_go_step by lia. apply IH.
  - apply N.div_lt; lia.
  - unfold lower in *. cbn [map_chars]. rewrite Hs. f_equal.
    unfold pretty_N_char. repeat case_match; reflexivity.
Qed.

Lemma lower_skill_name (i : nat) : lower ("skill" +:+ pretty i) = "skill" +:+ pretty i.
Proof.
  change (lower ("skill" +:+ pretty i)) with ("skill" +:+ lower (pretty i)).
  f_equal. unfold pretty, pretty_nat, pretty, pretty_N.
  case_decide; [reflexivity|]. apply lower_pretty_N_go. reflexivity.
Qed.

Lemma skill_name_inj (i j : nat) :
  "skill" +:+ pretty i = "skill" +:+ pretty j -> i = j.
Proof. intros H. injection H as H. exact (pretty_nat_inj _ _ H). Qed.

Lemma required_set_job_requiring job_id n :
  required_set (job_requiring job_id n) =
  list_to_set (map (fun i : nat => "skill" +:+ pretty i) (seq 0 n)).
Proof.
  unfold required_set, job_requiring, lower_set. cbn [required_skills].
  f_equal. induction (seq 0 n) as [|i l IH]; [reflexivity|].
  cbn [map str_items flat_map app] in *. rewrite lower_skill_name. f_equal. exact IH.
Qed.

(** A candidate whose one skill is among the [n] skills a job requires:
    the job is listed with the score 1/n, rounded. *)
Lemma one_shared_skill_of (n : nat) :
  0 < n ->
  compute_matches (candidate_with ["skill0"]) [job_requiring "A" n]
  = Return [ {| m_jobId := "A"; m_score := Py.round (1 # Pos.of_nat n) 3 |} ].
Proof.
  intros Hn. rewrite compute_matches_value.
  set (cs := lower_set (skills (candidate_with ["skill0"]))).
  set (req := required_set (job_requiring "A" n)).
  assert (Hcs : cs = {[ "skill0" ]}).
  { unfold cs, lower_set. cbn. apply union_empty_r_L. }
  assert (Hsize : size req = n).
  { unfold req. rewrite required_set_job_requiring, size_list_to_set.
    - rewrite length_map. apply length_seq.
    - apply NoDup_fmap_2; [intros i j; apply skill_name_inj | apply NoDup_seq]. }
  assert (Hsub : cs ⊆ req).
  { rewrite Hcs. apply singleton_subseteq_l. unfold req.
    rewrite required_set_job_requiring, elem_of_list_to_set.
    apply list_elem_of_fmap. exists 0. split; [reflexivity|].
    apply elem_of_seq. lia. }
  assert (Hratio : jaccard_ratio cs req = (1 # Pos.of_nat n)%Q).
  { unfold jaccard_ratio.
    rewrite (subseteq_intersection_1_L _ _ Hsub), (subseteq_union_1_L _ _ Hsub).
    rewrite Hsize, Hcs, size_singleton. reflexivity. }
  assert (Hkept : kept cs (job_requiring "A" n) = Some ("A", (1 # Pos.of_nat n)%Q)).
  { apply kept_spec. split; [reflexivity|]. split; [discriminate|]. split.
    - fold req. intros He. rewrite He, size_empty in Hsize. lia.
    - fold req. rewrite Hratio. split; reflexivity. }
  unfold scored. cbn [flat_map]. rewrite Hkept. reflexivity.
Qed.

(** C3 as stated fails on the output: a job with 2001 required skills, one
    of them the candidate's, has similarity 1/2001 > 0 and is listed with
    the score 0.0. *)
Lemma positive_similarity_shown_as_zero :
  compute_matches (candidate_with ["skill0"]) [job_requiring "A" 2001]
  = Return [ {| m_jobId := "A"; m_score := (0 # 1000)%Q |} ] /\
  ~ (0 < 0 # 1000)%Q.
Proof.
  split; [|intros H; discriminate H].
  rewrite one_shared_skill_of by lia. reflexivity.
Qed.

End MatchClaims.

(** ** Email and experience extraction *)

Section RegexClaims.
Import PyStr Re Processor.





Lemma scan_occurs r s m :
  In m (scan r 0 s) -> exists i, occurs_at (whole m) i s /\ denotes r (whole m).
Proof.
  intros Hin. apply scan_sound in Hin. destruct Hin as (pre & t & -> & Hm).
  apply match_at_sound in Hm. destruct Hm as ((post & ->) & Hd & _).
  exists (String.length pre). split; [|exact Hd].
  exists pre, post. split; reflexivity.
Qed.

(** C6, as the code has it: the experience is read from the matches of
    [number, blanks, optional "+", blanks, "year" or "years"] that a
    left-to-right scan of the lowercased text finds.  Each captured number
    converts to a value that is not negative; the result is the greatest of
    these values, and 0 when the text holds no match. *)
Theorem extract_experience_years_spec (lower_text : string) :
  exists years q,
    Py.map_m Py.float (findall years_re lower_text) = Return years /\
    Forall2 reads (scan years_re 0 lower_text) years /\
    (forall m, In m (scan years_re 0 lower_text) ->
       exists i, occurs_at (whole m) i lower_text /\ denotes years_re (whole m)) /\
    extract_experience_years lower_text = Return q /\
    (years = [] <->
       forall i w, occurs_at w i lower_text -> ~ denotes years_re w) /\
    (years = [] -> q = 0%Q) /\
    (years <> [] -> In q years /\ Forall (fun y => (y <= q)%Q) years).
Proof.
  destruct (years_convert lower_text) as (years & Hconv & Hreads).
  assert (Hq : exists q, extract_experience_years lower_text = Return q /\
                 (years = [] -> q = 0%Q) /\
                 (years <> [] -> In q years /\ Forall (fun y => (y <= q)%Q) years)).
  { unfold extract_experience_years. rewrite Hconv. cbn [mbind outcome_bind bind].
    destruct years as [|y ys].
    - exists 0%Q. split; [reflexivity|]. split; [reflexivity | congruence].
    - destruct (max_spec y ys) as (m & Hm & Hin & Hall).
      exists m. split; [exact Hm|]. split; [discriminate | auto]. }
  destruct Hq as (q & Hq & Hzero & Hmax).
  exists years, q. split; [exact Hconv|]. split; [exact Hreads|].
  split; [intros m; apply scan_occurs|]. split; [exact Hq|].
  split; [|split; assumption].
  rewrite <- scan_nil. split.
  - intros ->. inversion Hreads. reflexivity.
  - intros Hnil. rewrite Hnil in Hreads. inversion Hreads. reflexivity.
Qed.

(** The examples of C6, and a match with a blank before the "+". *)
Example experience_examples :
  extract_experience_years "3 years... 5+ years" = Return 5%Q /\
  extract_experience_years "no experience stated" = Return 0%Q /\
  extract_experience_years "7 + years" = Return 7%Q.
Proof. repeat split; vm_compute; reflexivity. Qed.

(** The pattern in the words of the specification: a number, an optional
    "+", optional blanks, "year" or "years". *)
Definition years_re_as_specified : regex :=
  Cat (Grp number_re)
    (Cat (Opt (Chr "+"))
      (Cat (Rep is_space 0) (Cat (Lit "year") (Opt (Chr "s"))))).

Definition experience_years_as_specified (lower_text : string) : outcome Q :=
  years ← Py.map_m Py.float (findall years_re_as_specified lower_text);
  match years with
  | [] => Return 0%Q
  | _ :: _ => Py.max years
  end.

(** C6 as stated fails: with a blank between the number and the "+", the
    specified pattern has no match and would give 0.0; the code gives the
    number. *)
Lemma blank_before_plus_still_counts :
  extract_experience_years (lower "7 + Years") = Return 7%Q /\
  experience_years_as_specified (lower "7 + Years") = Return 0%Q.
Proof. split; vm_compute; reflexivity. Qed.

End RegexClaims.

(** ** The queue consumer: which messages are taken up *)

Section IngestFacts.
Import Processor.

Variables RESUME_BUCKET_NAME CANDIDATE_TABLE_NAME JOB_TABLE_NAME : string.
Variable json_loads : string -> outcome json.
Variable detect_document_text : json -> json -> outcome (list block).
Variable scan : outcome (list job).
Variable put_item : list candidate -> candidate -> outcome (list candidate).
Variable uuid4 : nat -> string.

(** A failure of the text recognition or of the job table ends the
    ingestion with that failure. *)
Lemma ingest_detect_raises bucket key st e :
  detect_document_text bucket key = Raise e ->
  ingest detect_document_text scan put_item uuid4 bucket key st = Raise e.
Proof.
  intros Hd. unfold ingest, extract_text_with_textract. rewrite Hd. reflexivity.
Qed.

Lemma ingest_scan_raises bucket key st blocks e :
  detect_document_text bucket key = Return blocks ->
  scan = Raise e ->
  ingest detect_document_text scan put_item uuid4 bucket key st = Raise e.
Proof.
  intros Hd Hs. unfold ingest, extract_text_with_textract, list_all_jobs.
  rewrite Hd. cbn [mbind outcome_bind bind].
  match goal with |- context [parse_candidate_profile ?t] =>
    destruct (parse_candidate_profile_returns t) as (years & _ & Hp); rewrite Hp end.
  cbn [mbind outcome_bind bind]. rewrite Hs. reflexivity.
Qed.

(** With the text recognised and the jobs read, the ingestion hands one
    item to the candidate table: the profile parsed from the recognised
    text, under the next fresh identifier, with the key of the message and
    the matches against the jobs read.  Its outcome is the table's. *)
Lemma ingest_value bucket key st blocks jobs :
  detect_document_text bucket key = Return blocks ->
  scan = Return jobs ->
  exists c text,
    candidateId c = uuid4 (next_uuid st) /\
    sourceObjectKey c = key /\
    extract_text_with_textract detect_document_text bucket key = Return text /\
    parse_candidate_profile text = Return (c_profile c) /\
    compute_matches (c_profile c) jobs = Return (matches c) /\
    length (matches c) <= 10 /\
    ingest detect_document_text scan put_item uuid4 bucket key st =
      (items ← put_item (candidate_items st) c;
       Return {| candidate_items := items; next_uuid := S (next_uuid st) |}).
Proof.
  intros Hd Hs. unfold ingest, list_all_jobs.
  assert (Ht : exists text,
            extract_text_with_textract detect_document_text bucket key = Return text).
  { unfold extract_text_with_textract. rewrite Hd. eexists. reflexivity. }
  destruct Ht as (text & Ht). rewrite Ht. cbn [mbind outcome_bind bind].
  destruct (parse_candidate_profile_returns text) as (years & _ & Hp).
  rewrite Hp. cbn [mbind outcome_bind bind]. rewrite Hs. cbn [mbind outcome_bind bind].
  rewrite compute_matches_value. cbn [mbind outcome_bind bind].
  eexists. exists text.
  split; [|split; [|split; [|split; [|split; [|split; [|reflexivity]]]]]];
    cbn [candidateId sourceObjectKey c_profile matches].
  - reflexivity.
  - reflexivity.
  - reflexivity.
  - exact Hp.
  - apply compute_matches_value.
  - rewrite length_map. apply firstn_le_length.
Qed.

(** The loop of the handler, one message at a time. *)
Lemma lambda_handler_nil st :
  PyStr.truthy CANDIDATE_TABLE_NAME = true ->
  PyStr.truthy JOB_TABLE_NAME = true ->
  lambda_handler RESUME_BUCKET_NAME CANDIDATE_TABLE_NAME JOB_TABLE_NAME json_loads
                 detect_document_text scan put_item uuid4 [] st
  = Return (st, {| statusCode := 200; r_message := "Processed resumes" |}).
Proof. intros Hc Hj. unfold lambda_handler. rewrite Hc, Hj. reflexivity. Qed.

Lemma lambda_handler_cons record rest st :
  PyStr.truthy CANDIDATE_TABLE_NAME = true ->
  PyStr.truthy JOB_TABLE_NAME = true ->
  lambda_handler RESUME_BUCKET_NAME CANDIDATE_TABLE_NAME JOB_TABLE_NAME json_loads
                 detect_document_text scan put_item uuid4 (record :: rest) st
  = (st' ← process_record RESUME_BUCKET_NAME json_loads detect_document_text scan
                          put_item uuid4 st record;
     lambda_handler RESUME_BUCKET_NAME CANDIDATE_TABLE_NAME JOB_TABLE_NAME json_loads
                    detect_document_text scan put_item uuid4 rest st').
Proof.
  intros Hc Hj. unfold lambda_handler. rewrite Hc, Hj. cbn [negb orb Py.for_each].
  destruct (process_record _ _ _ _ _ _ _ _); reflexivity.
Qed.

End IngestFacts.

Section QueueClaims.
Import Processor.

Variables RESUME_BUCKET_NAME CANDIDATE_TABLE_NAME JOB_TABLE_NAME : string.
Variable json_loads : string -> outcome json.
Variable detect_document_text : json -> json -> outcome (list block).
Variable scan : outcome (list job).
Variable put_item : list candidate -> candidate -> outcome (list candidate).
Variable uuid4 : nat -> string.

Let process := process_record RESUME_BUCKET_NAME json_loads detect_document_text
                              scan put_item uuid4.
Let handler := lambda_handler RESUME_BUCKET_NAME CANDIDATE_TABLE_NAME JOB_TABLE_NAME
                              json_loads detect_document_text scan put_item uuid4.

(** C9, as the code has it: with the tables configured, for a message whose
    body decodes to a JSON object, followed by any further messages.

    - Without a ["key"] field the message is a no-op: the store is
      unchanged, nothing is raised, and the handler answers as it does for
      the remaining messages alone.
    - Without a ["bucket"] field, with a default bucket configured and a
      non-empty key, the document is requested from the default bucket
      under that key.  A failure of the recognition or of the job table is
      raised.  Otherwise one item is handed to the candidate table: the
      profile parsed from the recognised text, under the next fresh
      identifier, with the key of the message and the matches against the
      jobs read; if the table refuses it that failure is raised, else the
      handler goes on with the remaining messages from the store the table
      answered.
    - After the last message the handler answers 200. *)
Theorem queue_message_fields (record : sqs_record) (rest : list sqs_record)
    (fields : list (string * json)) (st : store) :
  PyStr.truthy CANDIDATE_TABLE_NAME = true ->
  PyStr.truthy JOB_TABLE_NAME = true ->
  json_loads (body_text record) = Return (JObj fields) ->
  (Json.assoc "key" fields = None ->
     process st record = Return st /\
     handler (record :: rest) st = handler rest st) /\
  (Json.assoc "bucket" fields = None ->
   PyStr.truthy RESUME_BUCKET_NAME = true ->
   forall key, Json.assoc "key" fields = Some key -> Json.truthy key = true ->
     (forall e,
        detect_document_text (JStr RESUME_BUCKET_NAME) key = Raise e ->
        handler (record :: rest) st = Raise e) /\
     (forall blocks,
        detect_document_text (JStr RESUME_BUCKET_NAME) key = Return blocks ->
        (forall e, scan = Raise e -> handler (record :: rest) st = Raise e) /\
        (forall jobs, scan = Return jobs ->
           exists c text,
             candidateId c = uuid4 (next_uuid st) /\
             sourceObjectKey c = key /\
             extract_text_with_textract detect_document_text
               (JStr RESUME_BUCKET_NAME) key = Return text /\
             parse_candidate_profile text = Return (c_profile c) /\
             compute_matches (c_profile c) jobs = Return (matches c) /\
             handler (record :: rest) st =
               (items ← put_item (candidate_items st) c;
                handler rest {| candidate_items := items;
                                next_uuid := S (next_uuid st) |})))) /\
  handler [] st = Return (st, {| statusCode := 200; r_message := "Processed resumes" |}).
Proof.
  intros Hc Hj Hbody.
  assert (Hcons : forall r l s,
            handler (r :: l) s = (s' ← process s r; handler l s')).
  { intros r l s. apply lambda_handler_cons; assumption. }
  split; [|split].
  - intros Hk.
    assert (Hskip : process st record = Return st).
    { unfold process, process_record. rewrite Hbody.
      cbn [mbind outcome_bind bind Json.get]. rewrite Hk. reflexivity. }
    split; [exact Hskip|]. rewrite Hcons, Hskip. reflexivity.
  - intros Hb Hdefault key Hk Hkey.
    assert (Hp : process st record =
                 ingest detect_document_text scan put_item uuid4
                        (JStr RESUME_BUCKET_NAME) key st).
    { unfold process, process_record.
      rewrite Hbody. cbn [mbind outcome_bind bind Json.get]. rewrite Hb, Hk.
      cbn [Json.or_else Json.truthy]. rewrite Hdefault, Hkey. reflexivity. }
    split.
    + intros e Hd. rewrite Hcons, Hp.
      rewrite (ingest_detect_raises _ _ _ _ _ _ _ _ Hd). reflexivity.
    + intros blocks Hd. split.
      * intros e Hs. rewrite Hcons, Hp.
        rewrite (ingest_scan_raises _ _ _ _ _ _ _ _ _ Hd Hs). reflexivity.
      * intros jobs Hs.
        destruct (ingest_value detect_document_text scan put_item uuid4
                    (JStr RESUME_BUCKET_NAME) key st blocks jobs Hd Hs)
          as (c & text & Hid & Hkey' & Ht & Hprof & Hm & _ & Hi).
        exists c, text. repeat (split; [assumption|]).
        rewrite Hcons, Hp, Hi.
        destruct (put_item (candidate_items st) c); reflexivity.
  - apply lambda_handler_nil; assumption.
Qed.

End QueueClaims.

(** A queue message with a key and no bucket: [{"key": "cv.pdf"}]. *)
Definition key_only_body : string :=
  "{" +:+ String "034" ("key" +:+ String "034" (": "
      +:+ String "034" ("cv.pdf" +:+ String "034" "}"))).

(** Stand-ins for the services: a decoder that knows the two bodies used
    below, a recognition service that holds one document, and a candidate
    table that refuses every item. *)
Definition example_loads (s : string) : outcome json :=
  if String.eqb s key_only_body then Return (JObj [("key", JStr "cv.pdf")])
  else if String.eqb s "[]" then Return (JArr [])
  else if String.eqb s "{}" then Return (JObj [])
  else Raise JSONDecodeError.

Definition example_detect (bucket key : json) : outcome (list Processor.block) :=
  match bucket, key with
  | JStr b, JStr k =>
      if String.eqb b "resumes" && String.eqb k "cv.pdf"
      then Return [ {| Processor.BlockType := Some "LINE";
                       Processor.Text := Some "Jane Doe" |} ]
      else Raise ClientError
  | _, _ => Raise ClientError
  end.

Definition example_put (items : list Processor.candidate) (c : Processor.candidate)
    : outcome (list Processor.candidate) :=
  Raise TypeError.

(** C9 as stated fails on a message whose body is valid JSON and not an
    object: the body [[]] has no key, and the handler raises
    [AttributeError] instead of skipping the message; the message that
    follows is not looked at. *)
Lemma queue_body_not_an_object_raises :
  Processor.lambda_handler "resumes" "candidates" "jobs"
    example_loads example_detect (Return []) example_put (fun _ => "id")
    [ {| Processor.r_body := Some "[]" |}; {| Processor.r_body := None |} ]
    {| Processor.candidate_items := []; Processor.next_uuid := 0 |}
  = Raise AttributeError.
Proof. reflexivity. Qed.

(** C9 at a concrete batch: the message [{"key": "cv.pdf"}] with the default
    bucket [resumes], followed by a message without body.  The document is
    requested from [resumes]; the candidate table refuses the item. *)
Lemma queue_message_fields_witness :
  Processor.lambda_handler "resumes" "candidates" "jobs"
    example_loads example_detect (Return []) example_put (fun _ => "id")
    [ {| Processor.r_body := Some key_only_body |}; {| Processor.r_body := None |} ]
    {| Processor.candidate_items := []; Processor.next_uuid := 0 |}
  = Raise TypeError.
Proof.
  destruct (queue_message_fields "resumes" "candidates" "jobs"
              example_loads example_detect (Return []) example_put (fun _ => "id")
              {| Processor.r_body := Some key_only_body |}
              [ {| Processor.r_body := None |} ]
              [("key", JStr "cv.pdf")]
              {| Processor.candidate_items := []; Processor.next_uuid := 0 |}
              eq_refl eq_refl eq_refl) as (_ & H & _).
  destruct (H eq_refl eq_refl (JStr "cv.pdf") eq_refl eq_refl) as (_ & H1).
  destruct (H1 _ eq_refl) as (_ & H2).
  destruct (H2 [] eq_refl) as (c & text & _ & _ & _ & _ & _ & E).
  exact E.
Defined.

(** ** The HTTP front end: creating a job without a usable body *)

Section ApiClaims.
Import Api.

Variables CANDIDATE_TABLE_NAME JOB_TABLE_NAME : string.
Variable json_loads : string -> outcome json.
Variable uuid4 : nat -> string.
Variable str_exc : exn -> string.
Variable job_scan : list item -> outcome (list item).
Variable job_put_item : list item -> item -> outcome unit.

Let handler := lambda_handler CANDIDATE_TABLE_NAME JOB_TABLE_NAME json_loads uuid4
                              str_exc job_scan job_put_item.

(** C10, as the code has it: with both tables configured, for a POST on a
    path that starts with [/jobs].  A body that is absent, empty, or on
    which the JSON decoder raises [JSONDecodeError] is taken as the empty
    object: the answer is 400 "title is required" and nothing is stored.
    A body on which the decoder fails in any other way is answered 500
    with the text of that failure, and nothing is stored. *)
Theorem post_jobs_unusable_body (ev : event) (st : store) (p m : string) :
  PyStr.truthy CANDIDATE_TABLE_NAME = true ->
  PyStr.truthy JOB_TABLE_NAME = true ->
  path ev = Some p -> String.prefix "/jobs" p = true ->
  httpMethod ev = Some m -> PyStr.upper m = "POST" ->
  ((body ev = None \/ body ev = Some EmptyString \/
    exists b, body ev = Some b /\ json_loads b = Raise JSONDecodeError) ->
   handler ev st = (st, _response 400 (message "title is required"))) /\
  (forall b e,
     body ev = Some b -> b <> EmptyString ->
     json_loads b = Raise e -> e <> JSONDecodeError ->
     handler ev st = (st, _response 500 (message ("Internal error: " +:+ str_exc e)))).
Proof.
  intros Hc Hj Hp Hpre Hm Hup.
  assert (Ht : PyStr.truthy p = true) by (destruct p; [discriminate Hpre | reflexivity]).
  assert (Hroute : handler ev st =
            match (b ← _parse_body json_loads (body ev);
                   create_job uuid4 job_put_item b st) with
            | Return out => out
            | Raise exc => (st, _response 500 (message ("Internal error: " +:+ str_exc exc)))
            end).
  { unfold handler, lambda_handler. rewrite Hc, Hj, Hp, Hm, Hup. cbn [negb orb].
    rewrite Ht. unfold route. rewrite Hpre.
    change (String.eqb "POST" "GET") with false.
    change (String.eqb "POST" "POST") with true. reflexivity. }
  rewrite Hroute. split.
  - intros Hbody.
    assert (Hparse : _parse_body json_loads (body ev) = Return (JObj [])).
    { unfold _parse_body.
      destruct Hbody as [-> | [-> | (b & -> & Hb)]]; [reflexivity | reflexivity |].
      destruct (PyStr.truthy b); [|reflexivity]. rewrite Hb. reflexivity. }
    rewrite Hparse. reflexivity.
  - intros b e Hb Hne He Hother.
    assert (Htb : PyStr.truthy b = true) by (destruct b; [congruence | reflexivity]).
    assert (Hparse : _parse_body json_loads (body ev) = Raise e).
    { unfold _parse_body. rewrite Hb, Htb, He. cbn [negb].
      destruct e; try reflexivity. congruence. }
    rewrite Hparse. reflexivity.
Qed.

End ApiClaims.

(** A JSON decoder that gives up on brackets nested two thousand deep, as
    the library does once its recursion limit is reached. *)
Definition deep_brackets : string := string_of_list_ascii (repeat "["%char 2000).

Definition example_decoder (s : string) : outcome json :=
  if String.eqb s deep_brackets then Raise RecursionError else Raise JSONDecodeError.

(** C10 as stated fails on a body that is not valid JSON and on which the
    decoder fails otherwise than with [JSONDecodeError]: two thousand
    opening brackets are answered 500, not 400. *)
Lemma post_jobs_deep_nesting_500 :
  Api.lambda_handler "candidates" "jobs" example_decoder
    (fun _ => "id")
    (fun _ => "maximum recursion depth exceeded while decoding a JSON array from a unicode string")
    (fun items => Return items) (fun _ _ => Return tt)
    {| Api.path := Some "/jobs"; Api.resource := None;
       Api.httpMethod := Some "POST"; Api.body := Some deep_brackets |}
    {| Api.job_items := []; Api.candidate_items := []; Api.next_uuid := 0 |}
  = ({| Api.job_items := []; Api.candidate_items := []; Api.next_uuid := 0 |},
     Api._response 500
       (Api.message "Internal error: maximum recursion depth exceeded while decoding a JSON array from a unicode string")).
Proof. vm_compute. reflexivity. Qed.

(** C10 at a concrete request: [POST /jobs] with the body [{oops]. *)
Lemma post_jobs_unusable_body_witness :
  Api.lambda_handler "candidates" "jobs" example_decoder
    (fun _ => "id") (fun _ => "error")
    (fun items => Return items) (fun _ _ => Return tt)
    {| Api.path := Some "/jobs"; Api.resource := None;
       Api.httpMethod := Some "post"; Api.body := Some "{oops" |}
    {| Api.job_items := []; Api.candidate_items := []; Api.next_uuid := 0 |}
  = ({| Api.job_items := []; Api.candidate_items := []; Api.next_uuid := 0 |},
     Api._response 400 (Api.message "title is required")).
Proof.
  refine (proj1 (post_jobs_unusable_body "candidates" "jobs" example_decoder
            (fun _ => "id") (fun _ => "error")
            (fun items => Return items) (fun _ _ => Return tt)
            {| Api.path := Some "/jobs"; Api.resource := None;
               Api.httpMethod := Some "post"; Api.body := Some "{oops" |}
            {| Api.job_items := []; Api.candidate_items := []; Api.next_uuid := 0 |}
            "/jobs" "post"
            eq_refl eq_refl eq_refl eq_refl eq_refl eq_refl) _).
  right. right. exists "{oops". split; reflexivity.
Defined.

(** ** More on the profile parser *)

Section ParserExtras.
Import PyStr Re Processor.

Lemma prefix_spec (w s : string) :
  String.prefix w s = true <-> exists post, s = w +:+ post.
Proof.
  revert s. induction w as [|c w IH]; intros s.
  - split; [intros _; exists s; reflexivity | intros _; destruct s; reflexivity].
  - destruct s as [|d s]; simpl.
    + split; [discriminate | intros (post & H); discriminate].
    + destruct (ascii_dec c d) as [->|Hne].
      * rewrite IH. split; intros (post & H); exists post; [rewrite H; reflexivity|].
        injection H as ->. reflexivity.
      * split; [discriminate|]. intros (post & H). injection H as -> _. congruence.
Qed.

(** [needle in hay] holds exactly when [hay] splits around [needle]. *)
Lemma contains_spec (w s : string) :
  contains w s = true <-> exists pre post, s = pre +:+ w +:+ post.
Proof.
  induction s as [|c s IH]; cbn [contains]; rewrite orb_true_iff, prefix_spec.
  - split.
    + intros [(post & H) | H]; [|discriminate]. exists EmptyString, post. exact H.
    + intros (pre & post & H). left. destruct pre; [|discriminate].
      exists post. exact H.
  - rewrite IH. split.
    + intros [(post & H) | (pre & post & H)].
      * exists EmptyString, post. exact H.
      * exists (String c pre), post. rewrite H. reflexivity.
    + intros ([|d pre] & post & H).
      * left. exists post. exact H.
      * right. injection H as -> ->. exists pre, post. reflexivity.
Qed.

Lemma length_take (n : nat) (s : string) :
  String.length (take n s) = Nat.min n (String.length s).
Proof.
  revert s. induction n as [|n IH]; intros [|c s]; cbn [take String.length]; try reflexivity.
  rewrite IH. reflexivity.
Qed.

Lemma take_prefix (n : nat) (s : string) : exists rest, s = take n s +:+ rest.
Proof.
  revert s. induction n as [|n IH]; intros s.
  - exists s. destruct s; reflexivity.
  - destruct s as [|c s]; [exists EmptyString; reflexivity|].
    destruct (IH s) as (rest & H). exists rest. cbn [take]. rewrite app_cons, <- H.
    reflexivity.
Qed.

Lemma take_all (n : nat) (s : string) : String.length s <= n -> take n s = s.
Proof.
  revert s. induction n as [|n IH]; intros [|c s] H; cbn [take]; try reflexivity.
  - simpl in H. lia.
  - f_equal. apply IH. simpl in H. lia.
Qed.

(** X1: the stored raw text is the text cut after 5000 characters. *)
Theorem parse_profile_raw_text (text : string) :
  exists p, parse_candidate_profile text = Return p /\
    String.length (raw_text p) = Nat.min 5000 (String.length text) /\
    (exists rest, text = raw_text p +:+ rest) /\
    (String.length text <= 5000 -> raw_text p = text).
Proof.
  destruct (parse_candidate_profile_returns text) as (years & _ & Hp).
  eexists. split; [exact Hp|]. cbn [raw_text].
  split; [apply length_take|]. split; [apply take_prefix | apply take_all].
Qed.

Lemma rstrip_idem (s : string) : rstrip (rstrip s) = rstrip s.
Proof.
  induction s as [|c s IH]; [reflexivity|]. cbn [rstrip].
  destruct (is_space c && is_empty (rstrip s)) eqn:E; [reflexivity|].
  cbn [rstrip]. rewrite IH, E. reflexivity.
Qed.

Lemma lstrip_rstrip_lstrip (s : string) : lstrip (rstrip (lstrip s)) = rstrip (lstrip s).
Proof.
  pose proof (lstrip_head s) as H. destruct (lstrip s) as [|c u]; [reflexivity|].
  cbn [rstrip]. rewrite H. cbn [andb lstrip]. rewrite H. reflexivity.
Qed.

(** Trimming a trimmed string changes nothing. *)
Lemma strip_idem (s : string) : strip (strip s) = strip s.
Proof. unfold strip. rewrite lstrip_rstrip_lstrip. apply rstrip_idem. Qed.

(** X2: the name is never empty and carries no blank at either end. *)
Theorem parse_profile_name_trimmed (text : string) :
  exists p, parse_candidate_profile text = Return p /\
    name p <> EmptyString /\ strip (name p) = name p.
Proof.
  destruct (parse_candidate_profile_returns text) as (years & _ & Hp).
  eexists. split; [exact Hp|]. cbn [name]. unfold name_of, stripped_lines.
  induction (splitlines text) as [|ln lns IH].
  - split; [discriminate | reflexivity].
  - rewrite filter_cons. destruct (decide _) as [Ht|Ht]; [|exact IH].
    cbn [map]. apply Is_true_true in Ht. split; [|apply strip_idem].
    intros He. rewrite He in Ht. discriminate.
Qed.

(** X3: the experience is never negative. *)
Theorem parse_profile_experience_nonneg (text : string) :
  exists p, parse_candidate_profile text = Return p /\
    (0 <= total_experience_years p)%Q.
Proof.
  destruct (parse_candidate_profile_returns text) as (years & Hy & Hp).
  eexists. split; [exact Hp|]. cbn [total_experience_years].
  unfold extract_experience_years in Hy.
  destruct (years_convert (lower text)) as (ys & Hconv & Hreads).
  rewrite Hconv in Hy. cbn [mbind outcome_bind bind] in Hy.
  destruct ys as [|y ys].
  - apply Return_inj in Hy. subst years. apply Qle_refl.
  - destruct (max_spec y ys) as (m & Hm & Hin & _).
    rewrite Hm in Hy. apply Return_inj in Hy. subst m.
    assert (Hall : Forall (fun v => (0 <= v)%Q) (y :: ys)).
    { clear -Hreads. induction Hreads as [|m v ms vs Hr _ IH]; constructor; [|exact IH].
      destruct Hr as (_ & _ & _ & _ & _ & _ & _ & Hv). exact Hv. }
    rewrite Forall_forall in Hall. apply Hall, list_elem_of_In. exact Hin.
Qed.

(** A line that holds a title keyword is not blank. *)
Lemma title_line_not_blank (line : string) :
  has_title_keyword line = true -> strip line <> EmptyString.
Proof.
  unfold has_title_keyword. rewrite existsb_exists.
  intros (w & Hw & Hc) He. apply strip_empty in He.
  apply contains_spec in Hc. destruct Hc as (pre & post & ->).
  unfold blank in He. rewrite !all_chars_app, !andb_true_iff in He.
  destruct He as (_ & Hword & _).
  simpl in Hw. repeat (destruct Hw as [<- | Hw]; [vm_compute in Hword; discriminate|]).
  exact Hw.
Qed.

(** X4: the titles are the lines of the lowercased text that hold one of the
    six title words, trimmed; each once, ascending, none empty. *)
Theorem parse_profile_titles (text : string) :
  exists p, parse_candidate_profile text = Return p /\
    NoDup (titles p) /\
    StronglySorted (fun a b => String.ltb a b = true) (titles p) /\
    (forall t, In t (titles p) <->
       exists line, In line (splitlines (lower text)) /\
         (exists word, In word title_keywords /\ contains word line = true) /\
         t = strip line) /\
    (forall t, In t (titles p) -> t <> EmptyString).
Proof.
  destruct (parse_candidate_profile_returns text) as (years & _ & Hp).
  eexists. split; [exact Hp|]. cbn [titles].
  destruct (sorted_elements_spec (extract_titles (lower text))) as (Hnd & Hs & Hin).
  split; [exact Hnd|]. split; [exact Hs|].
  assert (Hmem : forall t, In t (Py.sorted_str (elements (extract_titles (lower text)))) <->
            exists line, In line (splitlines (lower text)) /\
                         has_title_keyword line = true /\ t = strip line).
  { intros t. rewrite Hin. apply elem_of_extract_titles. }
  split.
  - intros t. rewrite Hmem. unfold has_title_keyword.
    split; intros (line & Hl & Hk & Ht); exists line; (split; [exact Hl|]);
      (split; [|exact Ht]); apply existsb_exists; exact Hk.
  - intros t Ht. apply Hmem in Ht. destruct Ht as (line & _ & Hk & ->).
    apply title_line_not_blank. exact Hk.
Qed.

Lemma contains_trans (a b c : string) :
  contains a b = true -> contains b c = true -> contains a c = true.
Proof.
  rewrite !contains_spec. intros (p1 & q1 & ->) (p2 & q2 & ->).
  exists (p2 +:+ p1), (q1 +:+ q2). rewrite !app_assoc_str. reflexivity.
Qed.

(** X5: the test is a plain substring test: a found keyword brings along every
    keyword it contains (mysql brings sql, javascript brings java, node.js
    brings node). *)
Theorem parse_profile_skills_nested (text : string) :
  exists p, parse_candidate_profile text = Return p /\
    (forall k1 k2,
       In k1 SKILL_KEYWORDS -> contains k1 k2 = true ->
       In k2 (skills p) -> In k1 (skills p)) /\
    (In "mysql" (skills p) -> In "sql" (skills p)) /\
    (In "javascript" (skills p) -> In "java" (skills p)).
Proof.
  destruct (parse_candidate_profile_returns text) as (years & _ & Hp).
  eexists. split; [exact Hp|]. cbn [skills].
  destruct (sorted_elements_spec (extract_skills (lower text))) as (_ & _ & Hin).
  assert (Hnest : forall k1 k2,
            In k1 SKILL_KEYWORDS -> contains k1 k2 = true ->
            In k2 (Py.sorted_str (elements (extract_skills (lower text)))) ->
            In k1 (Py.sorted_str (elements (extract_skills (lower text))))).
  { intros k1 k2 Hk1 Hc. rewrite !Hin, !elem_of_extract_skills.
    intros [_ Hk2]. split; [exact Hk1 | exact (contains_trans _ _ _ Hc Hk2)]. }
  split; [exact Hnest|]. split; apply Hnest; try reflexivity; simpl; tauto.
Qed.

Definition is_lowered (s : string) : bool :=
  all_chars (fun c => Ascii.eqb (lower_char c) c) s.

Lemma lower_char_idem (c : ascii) : Ascii.eqb (lower_char (lower_char c)) (lower_char c) = true.
Proof. destruct c as [[] [] [] [] [] [] [] []]; vm_compute; reflexivity. Qed.

Lemma is_lowered_lower (s : string) : is_lowered (lower s) = true.
Proof.
  unfold is_lowered, lower. induction s as [|c s IH]; [reflexivity|].
  cbn [map_chars all_chars]. rewrite lower_char_idem, IH. reflexivity.
Qed.

Lemma is_lowered_fixed (s : string) : is_lowered s = true -> lower s = s.
Proof.
  unfold is_lowered, lower. induction s as [|c s IH]; [reflexivity|].
  cbn [map_chars all_chars]. rewrite andb_true_iff. intros [Hc Hs].
  apply Ascii.eqb_eq in Hc. rewrite Hc, (IH Hs). reflexivity.
Qed.

Lemma all_chars_lstrip p (s : string) : all_chars p s = true -> all_chars p (lstrip s) = true.
Proof.
  induction s as [|c s IH]; [reflexivity|]. intros H. cbn [lstrip].
  destruct (is_space c); [|exact H].
  simpl in H. apply andb_true_iff in H. destruct H as [_ H]. exact (IH H).
Qed.

Lemma all_chars_rstrip p (s : string) : all_chars p s = true -> all_chars p (rstrip s) = true.
Proof.
  induction s as [|c s IH]; [reflexivity|]. intros H. cbn [rstrip].
  simpl in H. apply andb_true_iff in H. destruct H as [Hc H].
  destruct (is_space c && is_empty (rstrip s)); [reflexivity|].
  cbn [all_chars]. rewrite Hc, (IH H). reflexivity.
Qed.

Lemma all_chars_splitlines p (s : string) :
  all_chars p s = true -> Forall (fun ln => all_chars p ln = true) (splitlines s).
Proof.
  induction s as [s IH] using string_ind_len.
  destruct s as [|c s]; [constructor|]. intros H.
  simpl in H. apply andb_true_iff in H. destruct H as [Hc H].
  assert (IHs : Forall (fun ln => all_chars p ln = true) (splitlines s))
    by (apply IH; [simpl; lia | exact H]).
  cbn [splitlines]. destruct (is_linebreak c).
  - assert (Hdef : Forall (fun ln => all_chars p ln = true) (EmptyString :: splitlines s))
      by (constructor; [reflexivity | exact IHs]).
    destruct s as [|d s'']; [destruct c as [[] [] [] [] [] [] [] []]; exact Hdef|].
    assert (IH2 : Forall (fun ln => all_chars p ln = true) (splitlines s'')).
    { apply IH; [simpl; lia|]. simpl in H. apply andb_true_iff in H. tauto. }
    destruct c as [[] [] [] [] [] [] [] []]; try exact Hdef;
      destruct d as [[] [] [] [] [] [] [] []]; try exact Hdef.
    constructor; [reflexivity | exact IH2].
  - destruct (splitlines s) as [|l ls]; constructor; try constructor.
    + simpl. rewrite Hc. reflexivity.
    + inversion IHs; subst. simpl. rewrite Hc. assumption.
    + inversion IHs; assumption.
Qed.

(** X6: skills and titles are lowercase: lowering one of them again changes
    nothing. *)
Theorem parse_profile_lowercase (text : string) :
  exists p, parse_candidate_profile text = Return p /\
    (forall k, In k (skills p) -> lower k = k) /\
    (forall t, In t (titles p) -> lower t = t).
Proof.
  destruct (parse_candidate_profile_returns text) as (years & _ & Hp).
  eexists. split; [exact Hp|]. cbn [skills titles]. split.
  - intros k Hk.
    apply (proj1 (proj2 (proj2 (sorted_elements_spec _)) k)) in Hk.
    apply elem_of_extract_skills in Hk. destruct Hk as [Hk _].
    simpl in Hk. repeat (destruct Hk as [<- | Hk]; [reflexivity|]). destruct Hk.
  - intros t Ht.
    apply (proj1 (proj2 (proj2 (sorted_elements_spec _)) t)) in Ht.
    apply elem_of_extract_titles in Ht. destruct Ht as (line & Hl & _ & ->).
    apply is_lowered_fixed. unfold strip, is_lowered.
    apply all_chars_rstrip, all_chars_lstrip.
    pose proof (all_chars_splitlines _ _ (is_lowered_lower text)) as Hall.
    rewrite Forall_forall in Hall. apply Hall, list_elem_of_In. exact Hl.
Qed.

End ParserExtras.

(** ** More on the matching engine *)

Section MatchExtras.
Import PyStr Processor.

Lemma jaccard_ratio_comm (a b : gset string) : jaccard_ratio a b = jaccard_ratio b a.
Proof.
  unfold jaccard_ratio.
  rewrite (intersection_comm_L a b), (union_comm_L a b). reflexivity.
Qed.

Lemma jaccard_ratio_one (a b : gset string) :
  ~ (a = ∅ /\ b = ∅) -> ((jaccard_ratio a b == 1)%Q <-> a = b).
Proof.
  intros Hne. pose proof (union_size_pos a b Hne) as Hu.
  unfold jaccard_ratio, Qeq. cbn [Qnum Qden].
  rewrite Z.mul_1_r, Z.mul_1_l, <- positive_nat_Z, Nat2Pos.id by exact Hu.
  rewrite Nat2Z.inj_iff. split.
  - intros Hs.
    assert (Heq : a ∩ b = a ∪ b).
    { apply set_subseteq_size_eq; [|lia].
      intros x. rewrite elem_of_intersection, elem_of_union. tauto. }
    apply set_eq. intros x.
    assert (Hx : x ∈ a ∩ b <-> x ∈ a ∪ b) by (rewrite Heq; reflexivity).
    rewrite elem_of_intersection, elem_of_union in Hx. tauto.
  - intros ->. rewrite intersection_idemp_L, union_idemp_L. reflexivity.
Qed.

(** X7: the similarity is symmetric, lies between 0 and 1, is 0 exactly for
    sets without common element and 1 exactly for equal non-empty sets. *)
Theorem jaccard_similarity_bounds (a b : gset string) :
  exists q, jaccard_similarity a b = Return q /\
            jaccard_similarity b a = Return q /\
            (0 <= q <= 1)%Q /\
            ((q == 0)%Q <-> a ∩ b = ∅) /\
            ((q == 1)%Q <-> a = b /\ a <> ∅).
Proof.
  rewrite !jaccard_similarity_value.
  destruct (decide (a = ∅ /\ b = ∅)) as [[-> ->] | Hne].
  - exists 0%Q. destruct (decide _) as [_|H]; [|exfalso; apply H; auto].
    split; [reflexivity|]. split; [reflexivity|].
    split; [split; [apply Qle_refl | discriminate]|].
    split; [split; [intros _; apply intersection_empty_l_L | reflexivity]|].
    split; [discriminate | intros [_ H]; congruence].
  - exists (jaccard_ratio a b).
    destruct (decide (b = ∅ /\ a = ∅)) as [[H1 H2] | _]; [exfalso; apply Hne; auto|].
    split; [reflexivity|]. split; [rewrite jaccard_ratio_comm; reflexivity|].
    split; [split; [apply jaccard_ratio_nonneg | apply jaccard_ratio_le_1]|].
    split.
    + pose proof (jaccard_ratio_pos a b) as Hpos.
      pose proof (jaccard_ratio_nonneg a b) as H0. split.
      * intros Hz. destruct (decide (a ∩ b = ∅)) as [He|He]; [exact He|].
        apply Hpos in He. rewrite Hz in He. exfalso. exact (Qlt_irrefl _ He).
      * intros He. apply Qle_antisym; [|exact H0].
        apply Qnot_lt_le. intros Hlt. apply Hpos in Hlt. contradiction.
    + rewrite (jaccard_ratio_one a b Hne). split.
      * intros ->. split; [reflexivity|]. intros ->. apply Hne. auto.
      * intros [H _]. exact H.
Qed.

Lemma round_unit (s : Q) : (0 <= s <= 1)%Q -> (0 <= Py.round s 3 <= 1)%Q.
Proof.
  intros [H0 H1]. split; [apply round_nonneg; exact H0|].
  apply Qle_trans with (Py.round 1 3); [apply round_mono; exact H1|].
  vm_compute. discriminate.
Qed.

Lemma in_output_scored candidate jobs e :
  In e (map render (firstn 10
         (sort_best_first (scored (lower_set (skills candidate)) jobs)))) ->
  exists x, e = render x /\ In x (scored (lower_set (skills candidate)) jobs).
Proof.
  intros He. apply in_map_iff in He. destruct He as (x & <- & Hin).
  exists x. split; [reflexivity|].
  apply list_elem_of_In, subseteq_take, list_elem_of_In in Hin.
  exact (Permutation_in _ (proj1 (sort_best_first_spec _)) Hin).
Qed.

(** X8: every score in the output lies between 0 and 1. *)
Theorem compute_matches_scores_unit (candidate : profile) (jobs : list job) :
  exists out, compute_matches candidate jobs = Return out /\
    forall e, In e out -> (0 <= m_score e <= 1)%Q.
Proof.
  eexists. split; [apply compute_matches_value|].
  intros e He. apply in_output_scored in He. destruct He as ([i s] & -> & Hin).
  apply in_scored in Hin. destruct Hin as (j & _ & Hk).
  apply kept_spec in Hk. destruct Hk as (_ & _ & _ & -> & _).
  cbn [render m_score snd]. apply round_unit.
  split; [apply jaccard_ratio_nonneg | apply jaccard_ratio_le_1].
Qed.

(** X9: the output holds the best: a job that qualifies is listed, unless the
    output is full and each of its ten scores is at least the job's (as
    rounded).  With at most ten qualifying jobs all of them are listed. *)
Theorem compute_matches_keeps_best (candidate : profile) (jobs : list job) :
  exists out, compute_matches candidate jobs = Return out /\
    forall j job_id s,
      In j jobs -> jobId j = Some job_id -> job_id <> EmptyString ->
      required_set j <> ∅ ->
      jaccard_similarity (lower_set (skills candidate)) (required_set j) = Return s ->
      (0 < s)%Q ->
      In {| m_jobId := job_id; m_score := Py.round s 3 |} out \/
      (length out = 10 /\
       forall e, In e out -> (Py.round s 3 <= m_score e)%Q).
Proof.
  eexists. split; [apply compute_matches_value|].
  intros j job_id s Hj Hid Hne Hreq Hs Hpos.
  set (cs := lower_set (skills candidate)) in *.
  assert (Hin : In (job_id, s) (scored cs jobs)).
  { apply in_scored. exists j. split; [exact Hj|]. apply kept_spec.
    rewrite jaccard_similarity_value in Hs.
    destruct (decide _) as [[_ H]|_]; [contradiction|].
    apply Return_inj in Hs. repeat split; auto. }
  destruct (sort_best_first_spec (scored cs jobs)) as (Hperm & Hsorted & _).
  apply (Permutation_in _ (Permutation_sym Hperm)) in Hin.
  set (ranked := sort_best_first (scored cs jobs)) in *.
  rewrite <- (firstn_skipn 10 ranked) in Hin, Hsorted.
  apply in_app_or in Hin. destruct Hin as [Hin | Hin].
  - left. apply in_map_iff. exists (job_id, s). split; [reflexivity | exact Hin].
  - right. split.
    + rewrite length_map, length_firstn.
      assert (0 < length (skipn 10 ranked)) by (destruct (skipn 10 ranked); [destruct Hin | simpl; lia]).
      rewrite length_skipn in H. lia.
    + intros e He. apply in_map_iff in He. destruct He as (x & <- & Hx).
      cbn [render m_score]. apply round_mono.
      exact (StronglySorted_app_1_elem_of _ _ _ _ _ Hsorted
               (proj2 (list_elem_of_In _ _) Hx) (proj2 (list_elem_of_In _ _) Hin)).
Qed.

(** The identifiers of the jobs that have one, in job-list order. *)
Definition job_ids (jobs : list job) : list string :=
  flat_map (fun j => match jobId j with Some i => [i] | None => [] end) jobs.

Lemma scored_ids_sublist cs jobs : map fst (scored cs jobs) `sublist_of` job_ids jobs.
Proof.
  unfold scored, job_ids. induction jobs as [|j jobs IH]; [constructor|].
  cbn [flat_map]. rewrite map_app. apply sublist_app; [|exact IH].
  destruct (kept cs j) as [[i s]|] eqn:Hk.
  - apply kept_spec in Hk. destruct Hk as (-> & _). apply sublist_skip. constructor.
  - apply sublist_nil_l.
Qed.

(** X10: with distinct job identifiers, no job is listed twice. *)
Theorem compute_matches_distinct_ids (candidate : profile) (jobs : list job) :
  NoDup (job_ids jobs) ->
  exists out, compute_matches candidate jobs = Return out /\
              NoDup (map m_jobId out).
Proof.
  intros Hnd. eexists. split; [apply compute_matches_value|].
  set (cs := lower_set (skills candidate)).
  rewrite map_map.
  change (map (fun x => m_jobId (render x)) (firstn 10 (sort_best_first (scored cs jobs))))
    with (fst <$> firstn 10 (sort_best_first (scored cs jobs))).
  rewrite fmap_take.
  eapply sublist_NoDup; [|apply sublist_take].
  destruct (sort_best_first_spec (scored cs jobs)) as (Hperm & _).
  rewrite Hperm.
  eapply sublist_NoDup; [exact Hnd | apply scored_ids_sublist].
Qed.

End MatchExtras.

Lemma compute_matches_distinct_ids_witness :
  exists out,
    Processor.compute_matches (candidate_with ["python"; "aws"])
      [ {| Processor.jobId := Some "j1";
           Processor.required_skills := [JStr "Python"; JStr "SQL"] |};
        {| Processor.jobId := Some "j2";
           Processor.required_skills := [JStr "aws"] |} ] = Return out /\
    NoDup (map Processor.m_jobId out).
Proof.
  apply compute_matches_distinct_ids.
  apply (bool_decide_unpack (NoDup ["j1"; "j2"])). vm_compute. exact I.
Defined.

(** ** More on the queue consumer *)

Section QueueExtras.
Import PyStr Processor.

Definition no_linebreak (s : string) : bool :=
  all_chars (fun c => negb (is_linebreak c)) s.

Lemma splitlines_first_line (s rest : string) :
  no_linebreak s = true ->
  splitlines (s +:+ String "010" rest) = s :: splitlines rest.
Proof.
  unfold no_linebreak. induction s as [|c s IH]; intros H.
  - reflexivity.
  - simpl in H. apply andb_true_iff in H. destruct H as [Hc H].
    apply negb_true_iff in Hc. rewrite app_cons. cbn [splitlines].
    rewrite Hc, (IH H). reflexivity.
Qed.

Lemma splitlines_one_line (s : string) :
  no_linebreak s = true -> s <> EmptyString -> splitlines s = [s].
Proof.
  unfold no_linebreak. induction s as [|c s IH]; intros H Hne; [congruence|].
  simpl in H. apply andb_true_iff in H. destruct H as [Hc H].
  apply negb_true_iff in Hc. cbn [splitlines]. rewrite Hc.
  destruct s as [|d s]; [reflexivity|].
  rewrite (IH H); [reflexivity | discriminate].
Qed.

(** Joining lines with a newline and splitting again gives the lines back,
    provided none is empty or holds a line boundary. *)
Lemma splitlines_concat (lines : list string) :
  Forall (fun l => no_linebreak l = true /\ l <> EmptyString) lines ->
  splitlines (String.concat (String "010" EmptyString) lines) = lines.
Proof.
  induction 1 as [|l ls [Hl Hne] Hls IH]; [reflexivity|].
  destruct ls as [|l' ls].
  - cbn [String.concat]. apply splitlines_one_line; assumption.
  - change (String.concat (String "010" EmptyString) (l :: l' :: ls))
      with (l +:+ String "010" (String.concat (String "010" EmptyString) (l' :: ls))).
    rewrite (splitlines_first_line _ _ Hl), IH. reflexivity.
Qed.

(** The texts of the LINE blocks, empty ones left out. *)
Definition line_texts (blocks : list block) : list string :=
  flat_map (fun b =>
    match BlockType b, Text b with
    | Some ty, Some text =>
        if String.eqb ty "LINE" && truthy text then [text] else []
    | _, _ => []
    end) blocks.

Lemma line_texts_nonempty blocks : Forall (fun l => l <> EmptyString) (line_texts blocks).
Proof.
  unfold line_texts. induction blocks as [|b blocks IH]; [constructor|].
  cbn [flat_map]. apply Forall_app. split; [|exact IH].
  destruct (BlockType b) as [ty|]; [|constructor].
  destruct (Text b) as [text|]; [|constructor].
  destruct (String.eqb ty "LINE"); cbn [andb]; [|constructor].
  destruct text; cbn; constructor; [discriminate | constructor].
Qed.

(** X11: the recognised text, split into lines again, is the sequence of the
    non-empty LINE texts in the order of the response, when no such text
    holds a line boundary itself; a failure of the recognition service is
    passed on. *)
Theorem extract_text_lines
    (detect_document_text : json -> json -> outcome (list block))
    (bucket key : json) :
  (forall blocks,
     detect_document_text bucket key = Return blocks ->
     Forall (fun l => no_linebreak l = true) (line_texts blocks) ->
     exists text,
       extract_text_with_textract detect_document_text bucket key = Return text /\
       splitlines text = line_texts blocks) /\
  (forall e,
     detect_document_text bucket key = Raise e ->
     extract_text_with_textract detect_document_text bucket key = Raise e).
Proof.
  unfold extract_text_with_textract. split.
  - intros blocks Hd Hnb. rewrite Hd. cbn [mbind outcome_bind bind].
    eexists. split; [reflexivity|]. fold (line_texts blocks).
    apply splitlines_concat.
    pose proof (line_texts_nonempty blocks) as Hne.
    rewrite Forall_forall in *. intros l Hl. split; [apply Hnb | apply Hne]; exact Hl.
  - intros e Hd. rewrite Hd. reflexivity.
Qed.

Section Batch.
Variables RESUME_BUCKET_NAME CANDIDATE_TABLE_NAME JOB_TABLE_NAME : string.
Variable json_loads : string -> outcome json.
Variable detect_document_text : json -> json -> outcome (list block).
Variable scan : outcome (list job).
Variable put_item : list candidate -> candidate -> outcome (list candidate).
Variable uuid4 : nat -> string.

(** A message without document reference: the body is a JSON object
    without key, or without bucket while no default bucket is set. *)
Definition no_reference (record : sqs_record) : Prop :=
  exists fields,
    json_loads (body_text record) = Return (JObj fields) /\
    (Json.assoc "key" fields = None \/
     (Json.assoc "bucket" fields = None /\ RESUME_BUCKET_NAME = EmptyString)).

(** X12: a batch of messages without document reference is answered 200 and
    leaves the store as it was; without configured tables the handler
    raises whatever the batch. *)
Theorem lambda_handler_skips (records : list sqs_record) (st : store) :
  (truthy CANDIDATE_TABLE_NAME = true -> truthy JOB_TABLE_NAME = true ->
   Forall no_reference records ->
   lambda_handler RESUME_BUCKET_NAME CANDIDATE_TABLE_NAME JOB_TABLE_NAME json_loads
                  detect_document_text scan put_item uuid4 records st
   = Return (st, {| statusCode := 200; r_message := "Processed resumes" |})) /\
  (truthy CANDIDATE_TABLE_NAME = false \/ truthy JOB_TABLE_NAME = false ->
   lambda_handler RESUME_BUCKET_NAME CANDIDATE_TABLE_NAME JOB_TABLE_NAME json_loads
                  detect_document_text scan put_item uuid4 records st
   = Raise (RuntimeError "DynamoDB tables are not configured")).
Proof.
  unfold lambda_handler. split.
  - intros Hc Hj Hall. rewrite Hc, Hj. cbn [negb orb].
    assert (Hloop : Py.for_each
              (process_record RESUME_BUCKET_NAME json_loads detect_document_text
                              scan put_item uuid4) records st = Return st).
    { induction Hall as [|r rs Hr _ IH]; [reflexivity|].
      cbn [Py.for_each].
      assert (Hskip : process_record RESUME_BUCKET_NAME json_loads detect_document_text
                        scan put_item uuid4 st r = Return st).
      { destruct Hr as (fields & Hbody & Hcase). unfold process_record.
        rewrite Hbody. cbn [mbind outcome_bind bind Json.get].
        destruct Hcase as [Hk | [Hb ->]].
        - rewrite Hk. reflexivity.
        - rewrite Hb. cbn [Json.or_else Json.truthy truthy is_empty negb orb].
          destruct (Json.assoc "key" fields); reflexivity. }
      rewrite Hskip. exact IH. }
    rewrite Hloop. reflexivity.
  - intros [H | H]; rewrite H; cbn [negb orb]; [reflexivity|].
    destruct (negb (truthy CANDIDATE_TABLE_NAME)); reflexivity.
Qed.


End Batch.

End QueueExtras.


(** ** More on the HTTP front end *)

Section ApiExtras.
Import Api.

Variables CANDIDATE_TABLE_NAME JOB_TABLE_NAME : string.
Variable json_loads : string -> outcome json.
Variable uuid4 : nat -> string.
Variable str_exc : exn -> string.
Variable job_scan : list item -> outcome (list item).
Variable job_put_item : list item -> item -> outcome unit.

Let handler := lambda_handler CANDIDATE_TABLE_NAME JOB_TABLE_NAME json_loads uuid4
                              str_exc job_scan job_put_item.

(** What a request may do to the store and which status it may get: the
    store is left as it is, or one job is appended under status 201. *)
Definition effect (st : store) (out : store * response) : Prop :=
  (fst out = st /\
   (statusCode (snd out) = 200 \/ statusCode (snd out) = 400 \/
    statusCode (snd out) = 404)%Z) \/
  (statusCode (snd out) = 201%Z /\
   candidate_items (fst out) = candidate_items st /\
   next_uuid (fst out) = S (next_uuid st) /\
   exists it, job_items (fst out) = job_items st ++ [it] /\
              Json.assoc "jobId" it = Some (JStr (uuid4 (next_uuid st)))).

Lemma effect_same st code body :
  (code = 200 \/ code = 400 \/ code = 404)%Z -> effect st (st, _response code body).
Proof. intros H. left. split; [reflexivity | exact H]. Qed.

Lemma create_job_effect body st out :
  create_job uuid4 job_put_item body st = Return out -> effect st out.
Proof.
  unfold create_job. destruct body; cbn [Json.get mbind outcome_bind bind]; try discriminate.
  destruct (negb (Json.opt_truthy (Json.assoc "title" fields))).
  - intros H. apply Return_inj in H. subst out. apply effect_same. auto.
  - destruct (job_put_item _ _) as [[]|e]; cbn [mbind outcome_bind bind];
      [|discriminate].
    intros H. apply Return_inj in H. subst out.
    right. cbn [fst snd statusCode _response candidate_items next_uuid job_items].
    split; [reflexivity|]. split; [reflexivity|]. split; [reflexivity|].
    eexists. split; reflexivity.
Qed.

Lemma get_candidate_effect i st out :
  get_candidate i st = Return out -> effect st out.
Proof.
  unfold get_candidate. destruct (get_item i st); intros H;
    apply Return_inj in H; subst out; apply effect_same; auto.
Qed.

Lemma get_candidate_report_effect i st out :
  get_candidate_report i st = Return out -> effect st out.
Proof.
  unfold get_candidate_report. destruct (get_item i st); intros H;
    apply Return_inj in H; subst out; [|apply effect_same; auto].
  left. split; [reflexivity | left; reflexivity].
Qed.

Lemma route_effect p m ev st out :
  route json_loads uuid4 job_scan job_put_item p m ev st = Return out -> effect st out.
Proof.
  unfold route.
  assert (Hnf : forall o, Return (st, _response 404 (message "Not found")) = Return o ->
                          effect st o).
  { intros o H. apply Return_inj in H. subst o. apply effect_same. auto. }
  assert (Hcand : forall o,
    (if String.eqb m "GET" then
       if match last (filter PyStr.truthy (split "/" p)) with
          | Some last_part => String.eqb last_part "candidates"
          | None => false
          end && (length (filter PyStr.truthy (split "/" p)) <=? 2)%nat
       then list_candidates st
       else if existsb (String.eqb "candidates") (filter PyStr.truthy (split "/" p)) then
         match skipn (index "candidates" (filter PyStr.truthy (split "/" p)) + 1)
                     (filter PyStr.truthy (split "/" p)) with
         | [i] => get_candidate i st
         | [i; r] => if String.eqb r "report" then get_candidate_report i st
                     else Return (st, _response 404 (message "Not found"))
         | _ => Return (st, _response 404 (message "Not found"))
         end
       else Return (st, _response 404 (message "Not found"))
     else Return (st, _response 404 (message "Not found"))) = Return o ->
    effect st o).
  { intros o. destruct (String.eqb m "GET"); [|apply Hnf].
    destruct (_ && _).
    - unfold list_candidates. intros H. apply Return_inj in H. subst o.
      apply effect_same. auto.
    - destruct (existsb _ _); [|apply Hnf].
      destruct (skipn _ _) as [|i [|r [|x rest]]]; try apply Hnf.
      + apply get_candidate_effect.
      + destruct (String.eqb r "report"); [apply get_candidate_report_effect | apply Hnf]. }
  destruct (String.prefix "/jobs" p); [|apply Hcand].
  destruct (String.eqb m "GET").
  - unfold list_jobs.
    destruct (job_scan _) as [items|e]; cbn [mbind outcome_bind bind]; [|discriminate].
    intros H. apply Return_inj in H. subst out.
    apply effect_same. auto.
  - destruct (String.eqb m "POST"); [|apply Hnf].
    destruct (_parse_body json_loads (body ev)) as [b|e]; cbn [mbind outcome_bind bind];
      [apply create_job_effect | discriminate].
Qed.

(** X14: whatever the request, the handler answers with one of five statuses,
    never touches the candidates, and changes the jobs only by appending
    one job, with a fresh identifier, under status 201. *)
Theorem lambda_handler_effect (ev : event) (st : store) :
  effect st (handler ev st) \/
  (handler ev st).1 = st /\ statusCode (handler ev st).2 = 500%Z.
Proof.
  unfold handler, lambda_handler.
  destruct (_ || _); [right; split; reflexivity|].
  destruct (route _ _ _ _ _ _ _ _) as [out|e] eqn:Hr.
  - left. exact (route_effect _ _ _ _ _ Hr).
  - right. split; reflexivity.
Qed.

(** X15: a decoded body that is not an object (a list, a number, a string,
    null) makes [create_job] fail on its first [get]; the handler answers
    500 and stores nothing. *)
Theorem post_jobs_not_an_object (ev : event) (st : store) (p m b : string) (v : json) :
  PyStr.truthy CANDIDATE_TABLE_NAME = true ->
  PyStr.truthy JOB_TABLE_NAME = true ->
  path ev = Some p -> String.prefix "/jobs" p = true ->
  httpMethod ev = Some m -> PyStr.upper m = "POST" ->
  body ev = Some b -> b <> EmptyString -> json_loads b = Return v ->
  (forall fields, v <> JObj fields) ->
  handler ev st =
    (st, _response 500 (message ("Internal error: " +:+ str_exc AttributeError))).
Proof.
  intros Hc Hj Hp Hpre Hm Hup Hb Hne Hv Hobj.
  unfold handler, lambda_handler. rewrite Hc, Hj, Hp, Hm, Hup. cbn [negb orb].
  assert (Ht : PyStr.truthy p = true) by (destruct p; [discriminate Hpre | reflexivity]).
  rewrite Ht. unfold route. rewrite Hpre.
  change (String.eqb "POST" "GET") with false.
  change (String.eqb "POST" "POST") with true. cbn iota.
  unfold _parse_body. rewrite Hb.
  assert (Htb : PyStr.truthy b = true) by (destruct b; [congruence | reflexivity]).
  rewrite Htb, Hv. cbn [negb mbind outcome_bind bind].
  unfold create_job.
  destruct v; cbn [Json.get mbind outcome_bind bind]; try reflexivity.
  exfalso. exact (Hobj _ eq_refl).
Qed.

(** X16: creating a job and listing the jobs.  A POST with a title hands the
    job table one item: a fresh identifier, the title, the description
    (empty when left out) and the required skills (an empty list when left
    out or empty).  If the table accepts it the answer is 201 with that
    item; if the table refuses it the answer is 500 and nothing is stored.
    A GET answers 200 with the items the table's scan yields, in the order
    it yields them, or 500 when the scan fails; it stores nothing. *)
Theorem post_and_get_jobs (post get : event) (st : store) (p m b p' : string)
    (fields : list (string * json)) (title : json) :
  PyStr.truthy CANDIDATE_TABLE_NAME = true ->
  PyStr.truthy JOB_TABLE_NAME = true ->
  path post = Some p -> String.prefix "/jobs" p = true ->
  httpMethod post = Some m -> PyStr.upper m = "POST" ->
  body post = Some b -> b <> EmptyString -> json_loads b = Return (JObj fields) ->
  Json.assoc "title" fields = Some title -> Json.truthy title = true ->
  path get = Some p' -> String.prefix "/jobs" p' = true ->
  PyStr.upper (match httpMethod get with Some m' => m' | None => "GET" end) = "GET" ->
  let it := [ ("jobId", JStr (uuid4 (next_uuid st)));
              ("title", title);
              ("description",
               match Json.assoc "description" fields with
               | Some d => d | None => JStr EmptyString end);
              ("required_skills",
               Json.or_else (Json.assoc "required_skills" fields) (JArr [])) ] in
  (job_put_item (job_items st) it = Return tt ->
   handler post st =
     ({| job_items := job_items st ++ [it];
         candidate_items := candidate_items st;
         next_uuid := S (next_uuid st) |},
      _response 201 (JObj it))) /\
  (forall e,
     job_put_item (job_items st) it = Raise e ->
     handler post st =
       (st, _response 500 (message ("Internal error: " +:+ str_exc e)))) /\
  (forall items,
     job_scan (job_items st) = Return items ->
     handler get st =
       (st, _response 200 (JObj [("items", JArr (map JObj items))]))) /\
  (forall e,
     job_scan (job_items st) = Raise e ->
     handler get st =
       (st, _response 500 (message ("Internal error: " +:+ str_exc e)))).
Proof.
  intros Hc Hj Hp Hpre Hm Hup Hb Hne Hv Htitle Htruthy Hp' Hpre' Hm' it.
  assert (Ht : PyStr.truthy p = true) by (destruct p; [discriminate Hpre | reflexivity]).
  assert (Ht' : PyStr.truthy p' = true) by (destruct p'; [discriminate Hpre' | reflexivity]).
  assert (Htb : PyStr.truthy b = true) by (destruct b; [congruence | reflexivity]).
  assert (Hpost : handler post st =
            match (_ ← job_put_item (job_items st) it;
                   Return ({| job_items := job_items st ++ [it];
                              candidate_items := candidate_items st;
                              next_uuid := S (next_uuid st) |},
                           _response 201 (JObj it))) with
            | Return out => out
            | Raise exc => (st, _response 500 (message ("Internal error: " +:+ str_exc exc)))
            end).
  { unfold handler, lambda_handler. rewrite Hc, Hj, Hp, Hm, Hup. cbn [negb orb].
    rewrite Ht. unfold route. rewrite Hpre.
    change (String.eqb "POST" "GET") with false.
    change (String.eqb "POST" "POST") with true. cbn iota.
    unfold _parse_body. rewrite Hb, Htb, Hv. cbn [negb mbind outcome_bind bind].
    unfold create_job. cbn [Json.get mbind outcome_bind bind].
    rewrite Htitle. cbn [Json.opt_truthy]. rewrite Htruthy. reflexivity. }
  assert (Hget : handler get st =
            match list_jobs job_scan st with
            | Return out => out
            | Raise exc => (st, _response 500 (message ("Internal error: " +:+ str_exc exc)))
            end).
  { unfold handler, lambda_handler. rewrite Hc, Hj, Hp', Hm'. cbn [negb orb].
    rewrite Ht'. unfold route. rewrite Hpre'.
    change (String.eqb "GET" "GET") with true. reflexivity. }
  split; [|split; [|split]].
  - intros Hput. rewrite Hpost, Hput. reflexivity.
  - intros e Hput. rewrite Hpost, Hput. reflexivity.
  - intros items Hs. rewrite Hget. unfold list_jobs. rewrite Hs. reflexivity.
  - intros e Hs. rewrite Hget. unfold list_jobs. rewrite Hs. reflexivity.
Qed.






(** X19: only GET and POST are served, and POST only under [/jobs]: any other
    request is answered 404 and changes nothing. *)
Theorem other_methods_not_found (ev : event) (st : store) (p m : string) :
  PyStr.truthy CANDIDATE_TABLE_NAME = true ->
  PyStr.truthy JOB_TABLE_NAME = true ->
  path ev = Some p -> p <> EmptyString ->
  httpMethod ev = Some m -> PyStr.upper m <> "GET" ->
  (PyStr.upper m <> "POST" \/ String.prefix "/jobs" p = false) ->
  handler ev st = (st, _response 404 (message "Not found")).
Proof.
  intros Hc Hj Hp Hne Hm Hget Hpost.
  unfold handler, lambda_handler. rewrite Hc, Hj, Hp, Hm. cbn [negb orb].
  assert (Ht : PyStr.truthy p = true) by (destruct p; [congruence | reflexivity]).
  rewrite Ht. unfold route.
  apply String.eqb_neq in Hget. rewrite Hget.
  destruct (String.prefix "/jobs" p); [|reflexivity].
  destruct Hpost as [Hpost | Hpost]; [|discriminate].
  apply String.eqb_neq in Hpost. rewrite Hpost. reflexivity.
Qed.

End ApiExtras.

Lemma post_jobs_not_an_object_witness :
  Api.lambda_handler "candidates" "jobs" (fun _ => Return (JArr [])) (fun _ => "id")
    (fun _ => "no attribute get")
    (fun items => Return items) (fun _ _ => Return tt)
    {| Api.path := Some "/jobs"; Api.resource := None;
       Api.httpMethod := Some "POST"; Api.body := Some "[]" |}
    {| Api.job_items := []; Api.candidate_items := []; Api.next_uuid := 0 |}
  = ({| Api.job_items := []; Api.candidate_items := []; Api.next_uuid := 0 |},
     Api._response 500 (Api.message "Internal error: no attribute get")).
Proof.
  refine (post_jobs_not_an_object "candidates" "jobs" (fun _ => Return (JArr []))
            (fun _ => "id") (fun _ => "no attribute get")
            (fun items => Return items) (fun _ _ => Return tt)
            {| Api.path := Some "/jobs"; Api.resource := None;
               Api.httpMethod := Some "POST"; Api.body := Some "[]" |}
            {| Api.job_items := []; Api.candidate_items := []; Api.next_uuid := 0 |}
            "/jobs" "POST" "[]" (JArr [])
            eq_refl eq_refl eq_refl eq_refl eq_refl eq_refl eq_refl _ eq_refl _);
    discriminate.
Defined.

(** A request body with a title: [{"title": "Engineer"}]. *)
Definition title_only_body : string :=
  "{" +:+ String "034" ("title" +:+ String "034" (": "
      +:+ String "034" ("Engineer" +:+ String "034" "}"))).

Definition example_body_loads (s : string) : outcome json :=
  if String.eqb s title_only_body then Return (JObj [("title", JStr "Engineer")])
  else Raise JSONDecodeError.

(** X16 at a concrete request, with a job table that accepts the item. *)
Lemma post_and_get_jobs_witness :
  Api.lambda_handler "candidates" "jobs" example_body_loads (fun _ => "id-0")
    (fun _ => "error") (fun items => Return items) (fun _ _ => Return tt)
    {| Api.path := Some "/jobs"; Api.resource := None;
       Api.httpMethod := Some "POST"; Api.body := Some title_only_body |}
    {| Api.job_items := []; Api.candidate_items := []; Api.next_uuid := 0 |}
  = ({| Api.job_items :=
          [[("jobId", JStr "id-0"); ("title", JStr "Engineer");
            ("description", JStr EmptyString); ("required_skills", JArr [])]];
        Api.candidate_items := []; Api.next_uuid := 1 |},
     Api._response 201
       (JObj [("jobId", JStr "id-0"); ("title", JStr "Engineer");
              ("description", JStr EmptyString); ("required_skills", JArr [])])).
Proof.
  refine (proj1 (post_and_get_jobs "candidates" "jobs" example_body_loads
            (fun _ => "id-0") (fun _ => "error")
            (fun items => Return items) (fun _ _ => Return tt)
            {| Api.path := Some "/jobs"; Api.resource := None;
               Api.httpMethod := Some "POST"; Api.body := Some title_only_body |}
            {| Api.path := Some "/jobs"; Api.resource := None;
               Api.httpMethod := None; Api.body := None |}
            {| Api.job_items := []; Api.candidate_items := []; Api.next_uuid := 0 |}
            "/jobs" "POST" title_only_body "/jobs"
            [("title", JStr "Engineer")] (JStr "Engineer")
            eq_refl eq_refl eq_refl eq_refl eq_refl eq_refl eq_refl _ eq_refl
            eq_refl eq_refl eq_refl eq_refl eq_refl) eq_refl).
  discriminate.
Defined.



Lemma other_methods_not_found_witness :
  Api.lambda_handler "candidates" "jobs" (fun _ => Raise JSONDecodeError)
    (fun _ => "id") (fun _ => "error")
    (fun items => Return items) (fun _ _ => Return tt)
    {| Api.path := Some "/jobs"; Api.resource := None;
       Api.httpMethod := Some "DELETE"; Api.body := None |}
    {| Api.job_items := []; Api.candidate_items := []; Api.next_uuid := 0 |}
  = ({| Api.job_items := []; Api.candidate_items := []; Api.next_uuid := 0 |},
     Api._response 404 (Api.message "Not found")).
Proof.
  refine (other_methods_not_found "candidates" "jobs" (fun _ => Raise JSONDecodeError)
            (fun _ => "id") (fun _ => "error")
            (fun items => Return items) (fun _ _ => Return tt)
            {| Api.path := Some "/jobs"; Api.resource := None;
               Api.httpMethod := Some "DELETE"; Api.body := None |}
            {| Api.job_items := []; Api.candidate_items := []; Api.next_uuid := 0 |}
            "/jobs" "DELETE" eq_refl eq_refl eq_refl _ eq_refl _ _).
  - discriminate.
  - discriminate.
  - left. discriminate.
Defined.

(** ** The storage-event adapter and its hand-over to the queue consumer *)

Section EnqueueExtras.
Import Enqueue.

Variable QUEUE_URL : string.
Variable json_dumps : json -> string.

(** A queue that accepts every message. *)
Definition append_message (queue : list string) (body : string) : outcome (list string) :=
  Return (queue ++ [body]).

(** A storage record that names bucket [b] and key [k]. *)
Definition names (record : json) (b k : json) : Prop :=
  exists fields s3 bucket object,
    record = JObj fields /\
    Json.assoc "s3" fields = Some (JObj s3) /\
    Json.assoc "bucket" s3 = Some (JObj bucket) /\
    Json.assoc "name" bucket = Some b /\
    Json.assoc "object" s3 = Some (JObj object) /\
    Json.assoc "key" object = Some k.

Definition message_for (bk : json * json) : string :=
  json_dumps (JObj [("bucket", fst bk); ("key", snd bk)]).

Lemma enqueue_record_names queue record b k :
  names record b k ->
  enqueue_record json_dumps append_message queue record =
    if Json.truthy b && Json.truthy k
    then Return (queue ++ [message_for (b, k)])
    else Return queue.
Proof.
  intros (fields & s3 & bucket & object & -> & Hs3 & Hb & Hn & Ho & Hk).
  unfold enqueue_record, get_default.
  cbn [Json.get mbind outcome_bind bind]. rewrite Hs3.
  cbn [Json.get mbind outcome_bind bind]. rewrite Hb.
  cbn [Json.get mbind outcome_bind bind]. rewrite Hn, Ho.
  cbn [Json.get mbind outcome_bind bind]. rewrite Hk.
  destruct (Json.truthy b), (Json.truthy k); reflexivity.
Qed.

(** X20: one message per complete record, in the order of the event: with the
    queue configured, a batch of records that each name a bucket and a key
    adds to the queue the messages of those whose bucket and key are both
    non-empty, and is answered 200. *)
Theorem enqueue_batch (records : list json) (refs : list (json * json))
    (queue : list string) :
  PyStr.truthy QUEUE_URL = true ->
  Forall2 (fun record bk => names record (fst bk) (snd bk)) records refs ->
  lambda_handler QUEUE_URL json_dumps append_message records queue =
    Return (queue ++ map message_for
                       (List.filter (fun bk => Json.truthy (fst bk) && Json.truthy (snd bk))
                                    refs),
            {| statusCode := 200; r_message := "Enqueued resumes for processing" |}).
Proof.
  intros Hq Hall. unfold lambda_handler. rewrite Hq. cbn [negb].
  assert (Hloop : Py.for_each (enqueue_record json_dumps append_message) records queue =
            Return (queue ++ map message_for
                      (List.filter (fun bk => Json.truthy (fst bk) && Json.truthy (snd bk))
                                   refs))).
  { revert queue. induction Hall as [|record [b k] records refs Hn _ IH]; intros queue.
    - cbn. rewrite app_nil_r. reflexivity.
    - cbn [Py.for_each List.filter fst snd]. cbn [fst snd] in Hn.
      rewrite (enqueue_record_names _ _ _ _ Hn).
      destruct (Json.truthy b && Json.truthy k); cbn [mbind outcome_bind bind];
        rewrite IH; [|reflexivity].
      cbn [map]. rewrite <- app_assoc. reflexivity. }
  rewrite Hloop. reflexivity.
Qed.

End EnqueueExtras.

(** X21: a message written by the adapter is taken up by the queue consumer
    with the same bucket and key: when the decoder reads back what the
    encoder wrote, the document is ingested from that bucket, whatever the
    default bucket. *)
Theorem enqueued_message_ingested
    (RESUME_BUCKET_NAME : string)
    (json_dumps : json -> string) (json_loads : string -> outcome json)
    (detect_document_text : json -> json -> outcome (list Processor.block))
    (scan : outcome (list Processor.job))
    (put_item : list Processor.candidate -> Processor.candidate ->
                outcome (list Processor.candidate))
    (uuid4 : nat -> string)
    (record bucket key : json) (queue : list string) (st : Processor.store) :
  names record bucket key ->
  Json.truthy bucket = true -> Json.truthy key = true ->
  json_loads (message_for json_dumps (bucket, key)) =
    Return (JObj [("bucket", bucket); ("key", key)]) ->
  Enqueue.enqueue_record json_dumps append_message queue record =
    Return (queue ++ [message_for json_dumps (bucket, key)]) /\
  Processor.process_record RESUME_BUCKET_NAME json_loads detect_document_text scan
    put_item uuid4 st
    {| Processor.r_body := Some (message_for json_dumps (bucket, key)) |}
  = Processor.ingest detect_document_text scan put_item uuid4 bucket key st.
Proof.
  intros Hn Hb Hk Hround. split.
  - rewrite (enqueue_record_names json_dumps _ _ _ _ Hn), Hb, Hk. reflexivity.
  - unfold Processor.process_record, Processor.body_text. cbn [Processor.r_body].
    rewrite Hround. cbn [Json.get Json.assoc mbind outcome_bind bind].
    change (String.eqb "bucket" "bucket") with true.
    change (String.eqb "key" "bucket") with false.
    change (String.eqb "key" "key") with true. cbn iota.
    cbn [Json.or_else]. rewrite Hb, Hk. cbn iota. rewrite Hb. reflexivity.
Qed.

Lemma enqueue_batch_witness :
  Enqueue.lambda_handler "queue-url" (fun _ => "message") append_message
    [ JObj [("s3", JObj [("bucket", JObj [("name", JStr "resumes")]);
                         ("object", JObj [("key", JStr "cv.pdf")])])] ] []
  = Return (["message"],
            {| Enqueue.statusCode := 200;
               Enqueue.r_message := "Enqueued resumes for processing" |}).
Proof.
  refine (enqueue_batch "queue-url" (fun _ => "message")
            [ JObj [("s3", JObj [("bucket", JObj [("name", JStr "resumes")]);
                                 ("object", JObj [("key", JStr "cv.pdf")])])] ]
            [ (JStr "resumes", JStr "cv.pdf") ] [] eq_refl _).
  constructor; [|constructor].
  do 4 eexists. repeat split; reflexivity.
Defined.

Lemma enqueued_message_ingested_witness :
  Processor.process_record "default-bucket"
    (fun _ => Return (JObj [("bucket", JStr "resumes"); ("key", JStr "cv.pdf")]))
    (fun _ _ => Raise ClientError) (Return [])
    (fun items c => Return (items ++ [c])) (fun _ => "id")
    {| Processor.candidate_items := []; Processor.next_uuid := 0 |}
    {| Processor.r_body := Some "message" |}
  = Processor.ingest (fun _ _ => Raise ClientError) (Return [])
      (fun items c => Return (items ++ [c])) (fun _ => "id")
      (JStr "resumes") (JStr "cv.pdf")
      {| Processor.candidate_items := []; Processor.next_uuid := 0 |}.
Proof.
  refine (proj2 (enqueued_message_ingested "default-bucket" (fun _ => "message")
            (fun _ => Return (JObj [("bucket", JStr "resumes"); ("key", JStr "cv.pdf")]))
            (fun _ _ => Raise ClientError) (Return [])
            (fun items c => Return (items ++ [c])) (fun _ => "id")
            (JObj [("s3", JObj [("bucket", JObj [("name", JStr "resumes")]);
                                ("object", JObj [("key", JStr "cv.pdf")])])])
            (JStr "resumes") (JStr "cv.pdf") []
            {| Processor.candidate_items := []; Processor.next_uuid := 0 |}
            _ eq_refl eq_refl eq_refl)).
  do 4 eexists. repeat split; reflexivity.
Defined.
